(** * mi.producto: a shallow embedding of [modulo_ejemplo/models/producto.py]

    The Odoo model [Producto] is embedded as Rocq functions over an explicit
    table of rows.  Python floats are IEEE-754 binary64 numbers, which is what
    Rocq's primitive [float] is; Python ints are [Z]; dictionaries are finite
    maps with string keys; a recordset is a list of row ids.  Methods that read
    or write records run in a small state-and-exception monad [orm]. *)

From Stdlib Require Import ZArith String Floats Zpower.
From stdpp Require Import gmap strings list fin_maps sorting.

Local Open Scope Z_scope.

(** ** Python values, exceptions and the [orm] monad *)

(** The dynamically typed values that travel through [vals] dictionaries,
    search domains and method results. *)
Inductive value :=
| VNone
| VBool (b : bool)
| VInt (z : Z)
| VFloat (f : float)
| VStr (s : string)
| VRecordset (ids : list Z)
| VAction (d : gmap string string).

Inductive exc_class :=
| ValueError
| ValidationError
| MissingError
| IntegrityError
| OverflowError.

(** A raised exception: its class and the message it was built with. *)
Record exception := Exc { exc_type : exc_class; exc_msg : string }.

Inductive result (A : Type) :=
| Ok (a : A)
| Raise (e : exception).
Arguments Ok {A} a.
Arguments Raise {A} e.

(** Selection keys of the field [tipo]. *)
Inductive Tipo := fisico | digital.

(** One row of [mi.producto].  [descripcion], [categoria_id] and [tipo] read
    as [False] in Python when unset: that is [None] here. *)
Record Producto := {
  nombre : string;
  descripcion : option string;
  precio_unitario : float;
  cantidad : Z;
  subtotal : float;
  iva : float;
  total : float;
  activo : bool;
  categoria_id : option Z;
  tipo : option Tipo
}.

Definition set_nombre (v : string) (r : Producto) : Producto :=
  {| nombre := v; descripcion := descripcion r;
     precio_unitario := precio_unitario r; cantidad := cantidad r;
     subtotal := subtotal r; iva := iva r; total := total r;
     activo := activo r; categoria_id := categoria_id r; tipo := tipo r |}.

Definition set_descripcion (v : option string) (r : Producto) : Producto :=
  {| nombre := nombre r; descripcion := v;
     precio_unitario := precio_unitario r; cantidad := cantidad r;
     subtotal := subtotal r; iva := iva r; total := total r;
     activo := activo r; categoria_id := categoria_id r; tipo := tipo r |}.

Definition set_precio_unitario (v : float) (r : Producto) : Producto :=
  {| nombre := nombre r; descripcion := descripcion r;
     precio_unitario := v; cantidad := cantidad r;
     subtotal := subtotal r; iva := iva r; total := total r;
     activo := activo r; categoria_id := categoria_id r; tipo := tipo r |}.

Definition set_cantidad (v : Z) (r : Producto) : Producto :=
  {| nombre := nombre r; descripcion := descripcion r;
     precio_unitario := precio_unitario r; cantidad := v;
     subtotal := subtotal r; iva := iva r; total := total r;
     activo := activo r; categoria_id := categoria_id r; tipo := tipo r |}.

Definition set_subtotal (v : float) (r : Producto) : Producto :=
  {| nombre := nombre r; descripcion := descripcion r;
     precio_unitario := precio_unitario r; cantidad := cantidad r;
     subtotal := v; iva := iva r; total := total r;
     activo := activo r; categoria_id := categoria_id r; tipo := tipo r |}.

Definition set_iva (v : float) (r : Producto) : Producto :=
  {| nombre := nombre r; descripcion := descripcion r;
     precio_unitario := precio_unitario r; cantidad := cantidad r;
     subtotal := subtotal r; iva := v; total := total r;
     activo := activo r; categoria_id := categoria_id r; tipo := tipo r |}.

Definition set_total (v : float) (r : Producto) : Producto :=
  {| nombre := nombre r; descripcion := descripcion r;
     precio_unitario := precio_unitario r; cantidad := cantidad r;
     subtotal := subtotal r; iva := iva r; total := v;
     activo := activo r; categoria_id := categoria_id r; tipo := tipo r |}.

Definition set_activo (v : bool) (r : Producto) : Producto :=
  {| nombre := nombre r; descripcion := descripcion r;
     precio_unitario := precio_unitario r; cantidad := cantidad r;
     subtotal := subtotal r; iva := iva r; total := total r;
     activo := v; categoria_id := categoria_id r; tipo := tipo r |}.

Definition set_categoria_id (v : option Z) (r : Producto) : Producto :=
  {| nombre := nombre r; descripcion := descripcion r;
     precio_unitario := precio_unitario r; cantidad := cantidad r;
     subtotal := subtotal r; iva := iva r; total := total r;
     activo := activo r; categoria_id := v; tipo := tipo r |}.

Definition set_tipo (v : option Tipo) (r : Producto) : Producto :=
  {| nombre := nombre r; descripcion := descripcion r;
     precio_unitario := precio_unitario r; cantidad := cantidad r;
     subtotal := subtotal r; iva := iva r; total := total r;
     activo := activo r; categoria_id := categoria_id r; tipo := v |}.

(** The table of the model: row id to row. *)
Abbreviation store := (gmap Z Producto).

(** A method body: it reads and writes the table and either returns a value
    with the new table or raises.  A raise carries no table: whatever the body
    had written is lost, as the host rolls the transaction back. *)
Definition orm (A : Type) : Type := store -> result (A * store).

Definition ret {A} (a : A) : orm A := fun st => Ok (a, st).

Definition bind {A B} (m : orm A) (k : A -> orm B) : orm B :=
  fun st => match m st with
            | Ok (a, st') => k a st'
            | Raise e => Raise e
            end.

Definition raise {A} (e : exception) : orm A := fun _ => Raise e.

Declare Scope orm_scope.
Delimit Scope orm_scope with orm.
Notation "'let*' x := m 'in' k" := (bind m (fun x => k))
  (at level 10, x name, m at level 100, k at level 200) : orm_scope.
Notation "m >> k" := (bind m (fun _ => k))
  (at level 65, right associativity) : orm_scope.
Local Open Scope orm_scope.

(** [for x in l: body(x)] *)
Fixpoint for_each {A} (body : A -> orm unit) (l : list A) : orm unit :=
  match l with
  | [] => ret tt
  | x :: xs => body x >> for_each body xs
  end.

(** Modelled from the spec: reading a field of the record [id] takes it from
    its row in the table (§9, the collection as a store that is queried); a
    row that is not there raises the host's [MissingError]. *)
Definition browse (id : Z) : orm Producto :=
  fun st => match st !! id with
            | Some r => Ok (r, st)
            | None => Raise (Exc MissingError "Record does not exist or has been deleted.")
            end.

(** Assigning a computed field of the record [id]: the value is kept as it
    is, the two computed fields having no rounding declared. *)
Definition assign (id : Z) (f : Producto -> Producto) : orm unit :=
  let* r := browse id in fun st => Ok (tt, <[id := f r]> st).

(** ** Numbers *)

(** The value of Python's conversion of an int to a float in mixed
    arithmetic ([x * n] converts [n] first): the nearest binary64 number, ties
    to even; it is exact below 2^53 in magnitude (an Integer column holds 32
    bits).  Python gives this value where it is finite and raises
    [OverflowError] where it is not, that is from [2^1024 - 2^970] on in
    magnitude ([int_fits_float_iff]): there [float_of_int] is infinite and is
    not what the code computes.  [int_fits_float] is the domain,
    [float_mul_int] the operation with its error. *)
Definition float_of_int (z : Z) : float :=
  SF2Prim (binary_normalize prec emax z 0 false).

(** The ints that Python converts to a float: those whose nearest binary64
    number is in range. *)
Definition int_fits_float (z : Z) : bool :=
  negb (is_infinity (float_of_int z)).

(** Python's [x * n] for a float [x] and an int [n]. *)
Definition float_mul_int (x : float) (n : Z) : result float :=
  if int_fits_float n then Ok (x * float_of_int n)%float
  else Raise (Exc OverflowError "int too large to convert to float").

(** The state of the rounding's shift register after [k] shifts of the
    integer [P]: the quotient, and whether the remainder reaches the half. *)
Definition shifted (P k : Z) (mrs : shr_record) : Prop :=
  shr_m mrs = P / 2 ^ k ∧ shr_r mrs = (2 ^ k <=? 2 * (P mod 2 ^ k)).

(** The integer that a float is, when it is one. *)
Definition int_of_float (x : float) : option Z :=
  match Prim2SF x with
  | S754_zero _ => Some 0
  | S754_finite s m e =>
      if e <=? 0 then
        if Z.pos m mod 2 ^ (- e) =? 0
        then Some (cond_Zopp s (Z.pos m / 2 ^ (- e)))
        else None
      else Some (cond_Zopp s (Z.pos m * 2 ^ e))
  | _ => None
  end.

(** Truth value of a float ([bool(x)]): false for both zeros, true otherwise,
    NaN included. *)
Definition float_truthy (x : float) : bool := negb (PrimFloat.eqb x 0).

(** Truth value of an int. *)
Definition int_truthy (z : Z) : bool := negb (z =? 0).

(** ** The model's own methods, in source order *)

Definition _name : string := "mi.producto".
Definition _order : string := "nombre asc".
Definition _sql_constraints : list (string * string * string) :=
  [("nombre_uniq", "unique(nombre)", "El nombre del producto debe ser único")].

Definition _default_precio_unitario : float := 10.0%float.

(** [record.subtotal = record.precio_unitario * record.cantidad]: the value
    of [float_mul_int] on the quantities that convert ([int_fits_float]);
    beyond them Python raises in the multiplication, and the statements about
    this method on arbitrary quantities assume that they convert. *)
Definition _compute_subtotal_body (record : Producto) : Producto :=
  set_subtotal (precio_unitario record * float_of_int (cantidad record))%float record.

Definition _compute_subtotal (self : list Z) : orm unit :=
  for_each (fun id => assign id _compute_subtotal_body) self.

(** [record.total = record.subtotal * (1 + record.iva / 100)] *)
Definition _compute_total_body (record : Producto) : Producto :=
  set_total (subtotal record * (1 + iva record / 100))%float record.

Definition _compute_total (self : list Z) : orm unit :=
  for_each (fun id => assign id _compute_total_body) self.

(** [_check_valores]: the first record with a negative price, or else a
    negative quantity, raises; the message names the field only. *)
Definition _check_valores_body (record : Producto) : orm unit :=
  if (precio_unitario record <? 0)%float then
    raise (Exc ValueError "El precio unitario no puede ser negativo")
  else if cantidad record <? 0 then
    raise (Exc ValueError "La cantidad no puede ser negativa")
  else ret tt.

Definition _check_valores (self : list Z) : orm unit :=
  for_each (fun id => let* record := browse id in _check_valores_body record) self.

(** [_onchange_subtotal] runs on the form's draft record, which is not a row
    of the table.  The assignment is guarded by the truth value of both
    fields; the product is that of [_compute_subtotal], on the same
    quantities. *)
Definition _onchange_subtotal (self : Producto) : Producto :=
  if float_truthy (precio_unitario self) && int_truthy (cantidad self) then
    set_subtotal (precio_unitario self * float_of_int (cantidad self))%float self
  else self.

(** ** The host: defaults, columns, recomputation, validation, persistence

    The ORM that calls the methods above is not part of the module; the
    definitions of this section follow what the specification says of it. *)

(** Fields that have a column. *)
Definition stored_fields : list string :=
  ["nombre"; "descripcion"; "precio_unitario"; "cantidad"; "iva"; "activo";
   "categoria_id"; "tipo"].

(** All declared fields, the two computed ones included. *)
Definition all_fields : list string := stored_fields ++ ["subtotal"; "total"].

(** Modelled from the spec: the default declared with each field (§3), as the
    host's own [default_get] collects them for the requested fields. *)
Definition field_default (name : string) : option value :=
  if String.eqb name "precio_unitario" then Some (VFloat _default_precio_unitario)
  else if String.eqb name "cantidad" then Some (VInt 1)
  else if String.eqb name "iva" then Some (VInt 21)
  else if String.eqb name "activo" then Some (VBool true)
  else if String.eqb name "tipo" then Some (VStr "fisico")
  else None.

Fixpoint base_default_get (fields_list : list string) : gmap string value :=
  match fields_list with
  | [] => ∅
  | name :: rest =>
      match field_default name with
      | Some v => <[name := v]> (base_default_get rest)
      | None => base_default_get rest
      end
  end.

(** [default_get]: the host's defaults, then [defaults['cantidad'] = 1]. *)
Definition default_get (fields_list : list string) : gmap string value :=
  let defaults := base_default_get fields_list in
  <["cantidad" := VInt 1]> defaults.

(** [_get_tipos] *)
Definition _get_tipos : list (string * string) :=
  [("fisico", "Físico"); ("digital", "Digital")].

Definition tipo_of_key (k : string) : option Tipo :=
  if String.eqb k "fisico" then Some fisico
  else if String.eqb k "digital" then Some digital
  else None.

Definition key_of_tipo (t : Tipo) : string :=
  match t with fisico => "fisico" | digital => "digital" end.

Definition wrong_value {A} (name : string) : result A :=
  Raise (Exc ValueError ("Wrong value for mi.producto." +:+ name)).

(** Modelled from the spec: storing a Python value in the column of a field
    (§6, field name to type).  [False] unsets an optional field and is the
    zero of a number; an int is accepted where a float is expected; the
    required [nombre] refuses [False]; the computed fields have no column and
    a value given for them is dropped. *)
Definition convert_to_column (name : string) (v : value) (r : Producto)
  : result Producto :=
  if String.eqb name "nombre" then
    match v with
    | VStr s => Ok (set_nombre s r)
    | VBool false | VNone =>
        Raise (Exc IntegrityError "null value in column nombre violates not-null constraint")
    | _ => wrong_value name
    end
  else if String.eqb name "descripcion" then
    match v with
    | VStr s => Ok (set_descripcion (Some s) r)
    | VBool false | VNone => Ok (set_descripcion None r)
    | _ => wrong_value name
    end
  else if String.eqb name "precio_unitario" then
    match v with
    | VFloat f => Ok (set_precio_unitario f r)
    | VInt z => Ok (set_precio_unitario (float_of_int z) r)
    | VBool false | VNone => Ok (set_precio_unitario 0%float r)
    | _ => wrong_value name
    end
  else if String.eqb name "cantidad" then
    match v with
    | VInt z => Ok (set_cantidad z r)
    | VBool false | VNone => Ok (set_cantidad 0 r)
    | _ => wrong_value name
    end
  else if String.eqb name "iva" then
    match v with
    | VFloat f => Ok (set_iva f r)
    | VInt z => Ok (set_iva (float_of_int z) r)
    | VBool false | VNone => Ok (set_iva 0%float r)
    | _ => wrong_value name
    end
  else if String.eqb name "activo" then
    match v with
    | VBool b => Ok (set_activo b r)
    | VNone => Ok (set_activo false r)
    | _ => wrong_value name
    end
  else if String.eqb name "categoria_id" then
    match v with
    | VInt z => Ok (set_categoria_id (Some z) r)
    | VBool false | VNone => Ok (set_categoria_id None r)
    | _ => wrong_value name
    end
  else if String.eqb name "tipo" then
    match v with
    | VStr k =>
        match tipo_of_key k with
        | Some t => Ok (set_tipo (Some t) r)
        | None => wrong_value name
        end
    | VBool false | VNone => Ok (set_tipo None r)
    | _ => wrong_value name
    end
  else Ok r.

(** The values of [vals] stored field by field, in declaration order. *)
Fixpoint convert_all (names : list string) (vals : gmap string value)
    (r : Producto) : result Producto :=
  match names with
  | [] => Ok r
  | name :: rest =>
      match vals !! name with
      | None => convert_all rest vals r
      | Some v =>
          match convert_to_column name v r with
          | Ok r' => convert_all rest vals r'
          | Raise e => Raise e
          end
      end
  end.

(** A key of [vals] that is not a field of the model is refused. *)
Definition check_keys (vals : gmap string value) : orm unit :=
  if decide (dom vals ⊆ list_to_set all_fields) then ret tt
  else raise (Exc ValueError "Invalid field on model mi.producto").

(** The row before any value is stored in it. *)
Definition blank : Producto :=
  {| nombre := ""; descripcion := None; precio_unitario := 0%float;
     cantidad := 0; subtotal := 0%float; iva := 0%float; total := 0%float;
     activo := false; categoria_id := None; tipo := None |}.

(** A computed field as registered with the host: its name, the fields named
    by its [@api.depends] decorator, and the method that computes it. *)
Record computed := {
  field : string;
  depends : list string;
  method : list Z -> orm unit
}.

Definition computed_fields : list computed :=
  [ {| field := "subtotal"; depends := ["precio_unitario"; "cantidad"];
       method := _compute_subtotal |};
    {| field := "total"; depends := ["subtotal"; "iva"];
       method := _compute_total |} ].

Definition mentions (names : list string) (name : string) : bool :=
  bool_decide (name ∈ names).

(** A computed field is ready when none of the computed fields still to be
    scheduled is among its dependencies. *)
Definition ready (todo : list computed) (c : computed) : bool :=
  forallb (fun c' => negb (mentions (depends c) (field c'))) todo.

(** Modelled from the spec: the dependency order of the computed fields
    (§4.1), found from the dependency table (§9) by taking, round after
    round, the fields that are ready. *)
Fixpoint schedule (fuel : nat) (todo : list computed) : list computed :=
  match fuel with
  | O => []
  | S fuel' =>
      match List.filter (ready todo) todo with
      | [] => []
      | now => now ++ schedule fuel' (List.filter (fun c => negb (ready todo c)) todo)
      end
  end.

(** Of the computed fields in dependency order, those that a change to the
    fields [dirty] reaches; a recomputed field is itself changed. *)
Fixpoint triggered (dirty : list string) (order : list computed) : list computed :=
  match order with
  | [] => []
  | c :: cs =>
      if existsb (mentions dirty) (depends c)
      then c :: triggered (field c :: dirty) cs
      else triggered dirty cs
  end.

Definition recompute_plan (changed : list string) : list computed :=
  triggered changed (schedule (length computed_fields) computed_fields).

(** Modelled from the spec: one recomputation pass of the host over the
    records [self] after the fields [changed] were written (§4.1). *)
Definition recompute (changed : list string) (self : list Z) : orm unit :=
  for_each (fun c => method c self) (recompute_plan changed).

(** The fields named by the [@api.constrains] decorator of [_check_valores]. *)
Definition _check_valores_constrains : list string :=
  ["precio_unitario"; "cantidad"].

(** Modelled from the spec: the host runs a registered validation on the
    affected records when one of its trigger fields was written (§4.2, §6). *)
Definition _validate_fields (self : list Z) (names : list string) : orm unit :=
  if existsb (mentions names) _check_valores_constrains
  then _check_valores self
  else ret tt.

(** The SQL constraint [unique(nombre)]: some row other than [id] already
    has the name [n]. *)
Definition name_taken (id : Z) (n : string) (st : store) : bool :=
  bool_decide (map_Exists (fun i r => i ≠ id ∧ nombre r = n) st).

(** The message declared with the constraint in [_sql_constraints]. *)
Definition nombre_uniq_message : string :=
  match _sql_constraints with
  | (_, _, message) :: _ => message
  | [] => ""
  end.

(** Modelled from the spec: the uniqueness of the name, enforced by the
    host's storage layer when a row is written (§6, §7). *)
Definition check_unique (id : Z) : orm unit :=
  let* r := browse id in
  fun st =>
    if name_taken id (nombre r) st
    then Raise (Exc IntegrityError nombre_uniq_message)
    else Ok (tt, st).

(** Modelled from the spec: the values of a creation (§4.3): the supplied
    ones, and the defaults of [default_get] for the stored fields that were
    not supplied. *)
Definition with_defaults (vals : gmap string value) : gmap string value :=
  let missing :=
    List.filter (fun name => negb (bool_decide (is_Some (vals !! name)))) stored_fields in
  vals ∪ default_get missing.

(** Modelled from the spec: the host inserts a row (§4.3): defaults for the
    fields not supplied, the values stored in their columns, a new id, the
    uniqueness of the name, then a recomputation of the derived fields.  The
    result is the new record. *)
Definition insert_row (vals : gmap string value) : orm (list Z) :=
  let values := with_defaults vals in
  check_keys vals >>
  fun st =>
    match values !! "nombre" with
    | None => Raise (Exc IntegrityError "null value in column nombre violates not-null constraint")
    | Some _ =>
        match convert_all stored_fields values blank with
        | Raise e => Raise e
        | Ok r =>
            let id := fresh (dom st) in
            (check_unique id >> recompute stored_fields [id] >> ret [id])
              (<[id := r]> st)
        end
    end.

(** Modelled from the spec: the host updates the rows [self] (§4.3): the
    values stored in their columns, the uniqueness of a changed name, then a
    recomputation of the derived fields reached by the written fields. *)
Definition update_rows (self : list Z) (vals : gmap string value) : orm unit :=
  let names := elements (dom vals) in
  check_keys vals >>
  for_each (fun id =>
              let* r := browse id in
              fun st => match convert_all stored_fields vals r with
                        | Ok r' => Ok (tt, <[id := r']> st)
                        | Raise e => Raise e
                        end) self >>
  (if mentions names "nombre" then for_each check_unique self else ret tt) >>
  recompute names self.

(** Modelled from the spec: the host's [create] and [write] (§4.2, §4.3):
    the rows are written, then validated.  [create] validates every stored
    field, [write] the fields it was given. *)
Definition base_create (vals : gmap string value) : orm (list Z) :=
  let* record := insert_row vals in
  _validate_fields record stored_fields >>
  ret record.

Definition base_write (self : list Z) (vals : gmap string value) : orm bool :=
  update_rows self vals >>
  _validate_fields self (elements (dom vals)) >>
  ret true.

(** Modelled from the spec: one operation is one transaction (§5): its
    writes are kept when it returns and dropped when it raises. *)
Definition commit {A} (op : orm A) (st : store) : result A * store :=
  match op st with
  | Ok (a, st') => (Ok a, st')
  | Raise e => (Raise e, st)
  end.

(** What reading an optional field gives in Python: the value, or [False]. *)
Definition py_text (o : option string) : value :=
  match o with Some s => VStr s | None => VBool false end.

Definition py_id (o : option Z) : value :=
  match o with Some i => VInt i | None => VBool false end.

Definition py_tipo (o : option Tipo) : value :=
  match o with Some t => VStr (key_of_tipo t) | None => VBool false end.

(** The field of a row as a Python value. *)
Definition getattr (name : string) (r : Producto) : option value :=
  if String.eqb name "nombre" then Some (VStr (nombre r))
  else if String.eqb name "descripcion" then Some (py_text (descripcion r))
  else if String.eqb name "precio_unitario" then Some (VFloat (precio_unitario r))
  else if String.eqb name "cantidad" then Some (VInt (cantidad r))
  else if String.eqb name "subtotal" then Some (VFloat (subtotal r))
  else if String.eqb name "iva" then Some (VFloat (iva r))
  else if String.eqb name "total" then Some (VFloat (total r))
  else if String.eqb name "activo" then Some (VBool (activo r))
  else if String.eqb name "categoria_id" then Some (py_id (categoria_id r))
  else if String.eqb name "tipo" then Some (py_tipo (tipo r))
  else None.

(** Equality of two values as a domain leaf tests it. *)
Definition value_eqb (a b : value) : bool :=
  match a, b with
  | VNone, VNone => true
  | VBool x, VBool y => Bool.eqb x y
  | VInt x, VInt y => x =? y
  | VFloat x, VFloat y => PrimFloat.eqb x y
  | VInt x, VFloat y | VFloat y, VInt x => PrimFloat.eqb (float_of_int x) y
  | VStr x, VStr y => String.eqb x y
  | VRecordset x, VRecordset y => bool_decide (x = y)
  | _, _ => false
  end.

(** One leaf [(field, operator, value)] of a search domain on one row; the
    leaves of a domain are conjoined. *)
Definition leaf_holds (leaf : string * string * value) (r : Producto) : option bool :=
  let '(name, op, v) := leaf in
  match getattr name r with
  | None => None
  | Some x =>
      if String.eqb op "=" then Some (value_eqb x v)
      else if String.eqb op "!=" then Some (negb (value_eqb x v))
      else None
  end.

Definition domain_holds (domain : list (string * string * value)) (r : Producto) : bool :=
  forallb (fun leaf => match leaf_holds leaf r with Some b => b | None => false end) domain.

Definition domain_valid (domain : list (string * string * value)) : bool :=
  forallb (fun leaf => bool_decide (is_Some (leaf_holds leaf blank))) domain.

(** The comparison that [_order] asks for: [nombre asc]. *)
Definition order_le (order : string) (a b : Z * Producto) : Prop :=
  if String.eqb order "nombre asc" then String.le (nombre a.2) (nombre b.2)
  else a.1 ≤ b.1.

#[global] Instance order_le_dec order a b : Decision (order_le order a b).
Proof. unfold order_le. destruct (String.eqb order "nombre asc"); apply _. Defined.

(** Modelled from the spec: the host's [search] (§4.4, §9): the rows that
    satisfy the domain, in the model's default order. *)
Definition search (domain : list (string * string * value)) : orm (list Z) :=
  fun st =>
    if domain_valid domain then
      let rows := List.filter (fun ir => domain_holds domain ir.2) (map_to_list st) in
      Ok ((merge_sort (order_le _order) rows).*1, st)
    else Raise (Exc ValueError "Invalid domain").

(** ** The model's CRUD overrides and actions *)

(** [create]: [record = super().create(vals); return record] *)
Definition create (vals : gmap string value) : orm (list Z) :=
  let* record := base_create vals in
  ret record.

(** [write]: [res = super().write(vals); return res] *)
Definition write (self : list Z) (vals : gmap string value) : orm bool :=
  let* res := base_write self vals in
  ret res.

(** [record.name = v] for a stored field is a [write] of that field on the
    one record. *)
Definition setattr (record : Z) (name : string) (v : value) : orm unit :=
  write [record] {[name := v]} >> ret tt.

(** [action_marcar_inactivo] *)
Definition action_marcar_inactivo (self : list Z) : orm value :=
  for_each (fun record => setattr record "activo" (VBool false)) self >>
  ret (VBool true).

(** [action_abrir_wizard] *)
Definition action_abrir_wizard (self : list Z) : orm value :=
  ret (VAction (<["type" := "ir.actions.act_window"]>
               (<["res_model" := "mi.modulo.wizard"]>
               (<["view_mode" := "form"]>
               (<["target" := "new"]> ∅))))).

(** The dictionary that [duplicar_producto] hands to [create]. *)
Definition duplicar_vals (record : Producto) : gmap string value :=
  <["nombre" := VStr (nombre record +:+ " (Copia)")]>
  (<["descripcion" := py_text (descripcion record)]>
  (<["precio_unitario" := VFloat (precio_unitario record)]>
  (<["cantidad" := VInt (cantidad record)]>
  (<["iva" := VFloat (iva record)]>
  (<["activo" := VBool (activo record)]>
  (<["categoria_id" := py_id (categoria_id record)]>
  (<["tipo" := py_tipo (tipo record)]> ∅))))))).

(** [duplicar_producto]: the loop has no [return], the call gives [None]. *)
Definition duplicar_producto (self : list Z) : orm value :=
  for_each (fun id => let* record := browse id in
                      create (duplicar_vals record) >> ret tt) self >>
  ret VNone.

(** [productos_activos] *)
Definition productos_activos : orm value :=
  let* found := search [("activo", "=", VBool true)] in
  ret (VRecordset found).

(** ** Operations that are committed *)

(** A create or an update, as the host receives it. *)
Inductive operation :=
| OpCreate (vals : gmap string value)
| OpWrite (self : list Z) (vals : gmap string value).

(** The call the host makes for an operation, and its result as a value. *)
Definition run (op : operation) : orm value :=
  match op with
  | OpCreate vals => let* record := create vals in ret (VRecordset record)
  | OpWrite self vals => let* res := write self vals in ret (VBool res)
  end.

(** The part of an operation that comes before validation: the rows as they
    would be committed, and the affected records. *)
Definition stage (op : operation) : orm (list Z) :=
  match op with
  | OpCreate vals => insert_row vals
  | OpWrite self vals => update_rows self vals >> ret self
  end.

Definition written (op : operation) : list string :=
  match op with
  | OpCreate _ => stored_fields
  | OpWrite _ vals => elements (dom vals)
  end.

Definition returned (op : operation) (ids : list Z) : value :=
  match op with
  | OpCreate _ => VRecordset ids
  | OpWrite _ _ => VBool true
  end.

(** Does the operation write a trigger field of [_check_valores]? *)
Definition validated (op : operation) : bool :=
  existsb (mentions (written op)) _check_valores_constrains.

(** Neither test of [_check_valores] fires on the record. *)
Definition valores_ok (r : Producto) : Prop :=
  (precio_unitario r <? 0)%float = false ∧ 0 ≤ cantidad r.

(** The record on which [_check_valores] raises [e]. *)
Definition offending (r : Producto) (e : exception) : Prop :=
  (precio_unitario r <? 0)%float = true ∧
    e = Exc ValueError "El precio unitario no puede ser negativo"
  ∨ (precio_unitario r <? 0)%float = false ∧ cantidad r < 0 ∧
    e = Exc ValueError "La cantidad no puede ser negativa".

(** The claim of the specification for one operation, in its words: the
    commit succeeds exactly when every affected record has a price and a
    quantity of at least zero, and a negative price or quantity makes it fail
    with a [ValidationError], the table unchanged. *)
Definition spec_commit_claim (op : operation) (st : store) : Prop :=
  ∀ ids st1, stage op st = Ok (ids, st1) ->
    ((∃ v st', commit (run op) st = (Ok v, st')) <->
       (∀ id r, id ∈ ids -> st1 !! id = Some r ->
          (0 <=? precio_unitario r)%float = true ∧ 0 ≤ cantidad r)) ∧
    ((∃ id r, id ∈ ids ∧ st1 !! id = Some r ∧
        ((precio_unitario r <? 0)%float = true ∨ cantidad r < 0)) ->
       ∃ msg, commit (run op) st = (Raise (Exc ValidationError msg), st)).

(** The row that [create] makes of [duplicar_vals record]. *)
Definition copia (record : Producto) : Producto :=
  _compute_total_body
    (_compute_subtotal_body (set_nombre (nombre record +:+ " (Copia)") record)).

(** No row of the table has the name [n]. *)
Definition name_free (n : string) (st : store) : Prop :=
  ∀ i r, st !! i = Some r -> nombre r ≠ n.

(** The SQL constraint [unique(nombre)] as an invariant of the table. *)
Definition unique_names (st : store) : Prop :=
  ∀ i r, st !! i = Some r -> ∀ j r', st !! j = Some r' -> nombre r = nombre r' -> i = j.

(** The records [self] can be duplicated in the table [st]: they exist and
    pass [_check_valores], none is listed twice, and no row has the name of a
    copy already. *)
Definition duplicable (self : list Z) (st : store) : Prop :=
  (∀ id, id ∈ self -> ∃ r, st !! id = Some r ∧ valores_ok r) ∧
  NoDup self ∧
  unique_names st ∧
  (∀ id r, id ∈ self -> st !! id = Some r -> name_free (nombre r +:+ " (Copia)") st).

(** Rows in the order of their names. *)
Definition by_nombre (a b : Z * Producto) : Prop :=
  String.le (nombre a.2) (nombre b.2).

(** The descriptor that the specification gives for the wizard action (§6),
    in its words. *)
Definition spec_wizard_descriptor : gmap string string :=
  <["target_type" := "wizard"]>
  (<["target_model" := "mi.modulo.wizard"]>
  (<["mode" := "form"]>
  (<["display" := "modal"]> ∅))).

(** A method body that deletes no row. *)
Definition keeps_rows {A} (m : orm A) : Prop :=
  ∀ st a st', m st = Ok (a, st') -> ∀ id, is_Some (st !! id) -> is_Some (st' !! id).

(** The table after [for id in self: assign id f], row by row. *)
Definition assigned (f : Producto -> Producto) (self : list Z) (st : store) : store :=
  foldl (fun s id => alter f id s) st self.

(** ** Sample data

    The scenario of the specification: a product created with price 10.0,
    quantity 1 and 21 % tax. *)
Definition widget : Producto :=
  {| nombre := "Widget"; descripcion := None; precio_unitario := 10.0%float;
     cantidad := 1; subtotal := 10.0%float; iva := 21%float;
     total := 12.1%float; activo := true; categoria_id := None;
     tipo := Some fisico |}.

Definition gadget : Producto :=
  {| nombre := "Gadget"; descripcion := Some "spare"; precio_unitario := 2.5%float;
     cantidad := 4; subtotal := 0%float; iva := 10%float;
     total := 0%float; activo := true; categoria_id := Some 7;
     tipo := Some digital |}.

Definition shop : store := <[1 := widget]> (<[2 := gadget]> ∅).

(** Updates of the price of one record of [shop]. *)
Definition price_update (id : Z) (p : float) : operation :=
  OpWrite [id] {["precio_unitario" := VFloat p]}.

(** The two invariants of a committed table: names are unique, and no row
    has a price or a quantity on which [_check_valores] fires. *)
Definition table_ok (st : store) : Prop :=
  unique_names st ∧ ∀ id r, st !! id = Some r -> valores_ok r.

(** The loop of [update_rows] that stores [vals] in the rows [self]. *)
Definition store_vals (self : list Z) (vals : gmap string value) : orm unit :=
  for_each (fun id =>
              let* r := browse id in
              fun st => match convert_all stored_fields vals r with
                        | Ok r' => Ok (tt, <[id := r']> st)
                        | Raise e => Raise e
                        end) self.

(** A row with a negative price and a negative quantity, and a table that
    holds it after two valid rows. *)
Definition refund : Producto :=
  {| nombre := "Refund"; descripcion := None; precio_unitario := (-5)%float;
     cantidad := -2; subtotal := 10%float; iva := 21%float;
     total := 12.1%float; activo := true; categoria_id := None;
     tipo := Some fisico |}.

Definition ledger : store := <[3 := refund]> shop.

(** * Properties *)

(** ** Loops of field assignments *)

Section Loops.
Variable f : Producto -> Producto.

Lemma assign_run (id : Z) (st : store) (r : Producto) :
  st !! id = Some r -> assign id f st = Ok (tt, alter f id st).
Proof.
  intros Hr. unfold assign, bind, browse. rewrite Hr. f_equal. f_equal.
  apply map_eq. intros j. rewrite lookup_alter, lookup_insert.
  destruct (decide (id = j)) as [->|]; [by rewrite Hr | done].
Qed.

Lemma for_each_assign_run (self : list Z) (st : store) :
  (∀ id, id ∈ self -> is_Some (st !! id)) ->
  for_each (fun id => assign id f) self st = Ok (tt, assigned f self st).
Proof.
  revert st. induction self as [|a self IH]; intros st Hall; [done|].
  destruct (Hall a) as [r Hr]; [by left|].
  cbn [for_each]. unfold bind at 1. rewrite (assign_run _ _ _ Hr).
  rewrite IH; [done|]. intros id Hid.
  rewrite lookup_alter. destruct (decide (a = id)) as [->|].
  - rewrite Hr. by eexists.
  - apply Hall. by right.
Qed.

Lemma assigned_outside (self : list Z) (st : store) (id : Z) :
  id ∉ self -> assigned f self st !! id = st !! id.
Proof.
  revert st. induction self as [|a self IH]; intros st Hid; [done|].
  cbn. unfold assigned in IH. rewrite IH by set_solver.
  rewrite lookup_alter_ne; [done | set_solver].
Qed.

Hypothesis f_idem : ∀ r, f (f r) = f r.

Lemma assigned_inside (self : list Z) (st : store) (id : Z) :
  id ∈ self -> assigned f self st !! id = f <$> st !! id.
Proof.
  revert st. induction self as [|a self IH]; intros st Hid.
  { by apply elem_of_nil in Hid. }
  cbn. destruct (decide (id ∈ self)) as [Hin|Hout].
  - unfold assigned in IH. rewrite IH by done. rewrite lookup_alter.
    destruct (decide (a = id)) as [->|]; [|done].
    destruct (st !! id); cbn; [by rewrite f_idem | done].
  - pose proof (assigned_outside self (alter f a st) id Hout) as Ho.
    unfold assigned in Ho. rewrite Ho.
    apply elem_of_cons in Hid as [->|?]; [|done]. by rewrite lookup_alter_eq.
Qed.
End Loops.

(** ** Derived fields *)

Lemma _compute_subtotal_body_idem (r : Producto) :
  _compute_subtotal_body (_compute_subtotal_body r) = _compute_subtotal_body r.
Proof. reflexivity. Qed.

Lemma _compute_total_body_idem (r : Producto) :
  _compute_total_body (_compute_total_body r) = _compute_total_body r.
Proof. reflexivity. Qed.

Lemma in_shop (id : Z) : id ∈ [1; 2] -> is_Some (shop !! id).
Proof.
  intros Hid. apply elem_of_cons in Hid as [->|Hid]; [by eexists|].
  apply elem_of_cons in Hid as [->|Hid]; [by eexists|].
  by apply elem_of_nil in Hid.
Defined.

Example float_of_int_small :
  float_of_int 1 = 1%float ∧ float_of_int 0 = 0%float ∧
  float_of_int (-3) = (-3)%float ∧
  float_of_int (2 ^ 31 - 1) = 2147483647%float.
Proof. repeat split; reflexivity. Qed.

(** *** The conversion of the quantity *)

Lemma digits2_pos_le (p : positive) (n : Z) :
  0 <= n -> Z.pos p < 2 ^ n -> Z.pos (digits2_pos p) <= n.
Proof.
  revert n. induction p as [p IH|p IH|]; intros n Hn Hp; cbn [digits2_pos].
  - assert (n <> 0) by (intros ->; cbn in Hp; lia).
    replace n with (Z.succ (n - 1)) in Hp by lia.
    rewrite Z.pow_succ_r in Hp by lia.
    specialize (IH (n - 1) ltac:(lia) ltac:(lia)). lia.
  - assert (n <> 0) by (intros ->; cbn in Hp; lia).
    replace n with (Z.succ (n - 1)) in Hp by lia.
    rewrite Z.pow_succ_r in Hp by lia.
    specialize (IH (n - 1) ltac:(lia) ltac:(lia)). lia.
  - assert (n <> 0) by (intros ->; cbn in Hp; lia). lia.
Qed.

Lemma digits2_pos_shift (p k : positive) :
  Z.pos (digits2_pos (Pos.iter xO p k)) = Z.pos (digits2_pos p) + Z.pos k.
Proof.
  induction k as [|k IH] using Pos.peano_ind.
  - cbn. lia.
  - rewrite Pos.iter_succ. cbn [digits2_pos]. lia.
Qed.

(** An integer below 2^53 is a binary64 number: rounding it only aligns its
    digits. *)
Lemma binary_round_small (s : bool) (p : positive) :
  Z.pos p < 2 ^ 53 ->
  ∃ m e, binary_round prec emax s p 0 = S754_finite s m e ∧
         valid_binary (S754_finite s m e) = true ∧
         e <= 0 ∧ Z.pos m = Z.pos p * 2 ^ (- e).
Proof.
  intros Hp. pose proof (digits2_pos_le p 53 ltac:(lia) Hp) as Hd.
  unfold binary_round.
  assert (fexp prec emax (Z.pos (digits2_pos p) + 0) = Z.pos (digits2_pos p) - 53) as ->.
  { unfold fexp, emin, prec, emax. lia. }
  unfold shl_align.
  destruct (Z.pos (digits2_pos p) - 53 - 0) as [|k|k] eqn:Hk; [|lia|].
  - exists p, 0.
    assert (Z.pos (digits2_pos p) = 53) as H53 by lia.
    unfold binary_round_aux, shr_fexp, Zdigits2, shr_record_of_loc.
    assert (fexp prec emax (Z.pos (digits2_pos p) + 0) - 0 = 0) as ->.
    { unfold fexp, emin, prec, emax. lia. }
    cbn [shr shr_m loc_of_shr_record round_nearest_even Zdigits2].
    assert (fexp prec emax (Z.pos (digits2_pos p) + 0) - 0 = 0) as ->.
    { unfold fexp, emin, prec, emax. lia. }
    cbn [shr shr_m]. split; [reflexivity|]. split; [|lia].
    unfold valid_binary, SpecFloat.valid_binary, bounded, canonical_mantissa.
    assert (fexp prec emax (Z.pos (digits2_pos p) + 0) = 0) as ->.
    { unfold fexp, emin, prec, emax. lia. }
    reflexivity.
  - exists (Pos.iter xO p k), (Z.pos (digits2_pos p) - 53).
    pose proof (digits2_pos_shift p k) as Hs.
    assert (Z.pos (digits2_pos (Pos.iter xO p k)) = 53) as H53 by lia.
    assert (fexp prec emax (Z.pos (digits2_pos (Pos.iter xO p k)) + (Z.pos (digits2_pos p) - 53))
            = Z.pos (digits2_pos p) - 53) as Hf.
    { unfold fexp, emin, prec, emax. lia. }
    unfold binary_round_aux, shr_fexp, Zdigits2, shr_record_of_loc.
    rewrite Hf, Z.sub_diag.
    cbn [shr shr_m loc_of_shr_record round_nearest_even Zdigits2].
    rewrite Hf, Z.sub_diag. cbn [shr shr_m].
    assert ((Z.pos (digits2_pos p) - 53 <=? emax - prec) = true) as ->.
    { apply Z.leb_le. unfold emax, prec. lia. }
    split; [reflexivity|]. split; [|split; [lia|]].
    + unfold valid_binary, SpecFloat.valid_binary, bounded, canonical_mantissa.
      rewrite Hf, Z.eqb_refl.
      apply Z.leb_le. unfold emax, prec. lia.
    + change (Pos.iter xO p k) with (shift_pos k p). rewrite shift_pos_correct.
      replace (- (Z.pos (digits2_pos p) - 53)) with (Z.pos k) by lia.
      rewrite <- Z.pow_pos_fold. lia.
Qed.

Lemma digits2_pos_bounds (p : positive) :
  2 ^ (Z.pos (digits2_pos p) - 1) <= Z.pos p < 2 ^ Z.pos (digits2_pos p).
Proof.
  induction p as [p IH|p IH|]; cbn [digits2_pos]; [| |cbn; lia].
  - rewrite Pos2Z.inj_succ.
    replace (Z.succ (Z.pos (digits2_pos p)) - 1) with (Z.succ (Z.pos (digits2_pos p) - 1)) by lia.
    rewrite !Z.pow_succ_r by lia. lia.
  - rewrite Pos2Z.inj_succ.
    replace (Z.succ (Z.pos (digits2_pos p)) - 1) with (Z.succ (Z.pos (digits2_pos p) - 1)) by lia.
    rewrite !Z.pow_succ_r by lia. lia.
Qed.

Lemma digits2_pos_eq (p : positive) (n : Z) :
  2 ^ (n - 1) <= Z.pos p < 2 ^ n -> Z.pos (digits2_pos p) = n.
Proof.
  intros [Hlo Hhi]. pose proof (digits2_pos_bounds p) as [Hl Hh].
  assert (0 < n).
  { destruct (Z.ltb_spec 0 n); [done|]. 
    assert (2 ^ n <= 2 ^ 0) by (destruct (Z.eq_dec n 0) as [->|]; [done|]; rewrite Z.pow_neg_r by lia; cbn; lia).
    cbn in *. lia. }
  destruct (Z.lt_trichotomy (Z.pos (digits2_pos p)) n) as [Hc|[Hc|Hc]]; [|done|].
  - assert (2 ^ Z.pos (digits2_pos p) <= 2 ^ (n - 1)) by (apply Z.pow_le_mono_r; lia). lia.
  - assert (2 ^ n <= 2 ^ (Z.pos (digits2_pos p) - 1)) by (apply Z.pow_le_mono_r; lia). lia.
Qed.

(** One shift to the right halves the mantissa and records the bit that
    falls off. *)
Lemma shr_1_nonneg (m : Z) (r s : bool) :
  0 <= m ->
  shr_m (shr_1 (Build_shr_record m r s)) = m / 2 ∧
  shr_r (shr_1 (Build_shr_record m r s)) = Z.odd m.
Proof.
  intros Hm. destruct m as [|[p|p|]|p]; [done| | |done|lia]; cbn [shr_1 shr_m shr_r].
  - split; [|done]. apply Z.div_unique with 1; lia.
  - split; [|done]. apply Z.div_unique with 0; lia.
Qed.

Lemma shr_1_shifted (P k : Z) (mrs : shr_record) :
  0 <= P -> 0 <= k -> shifted P k mrs -> shifted P (k + 1) (shr_1 mrs).
Proof.
  intros HP Hk. destruct mrs as [m r s]. intros [Hm Hr]. cbn [shr_m shr_r] in Hm, Hr.
  assert (0 < 2 ^ k) as HT by (apply Z.pow_pos_nonneg; lia).
  assert (0 <= m) as Hm0 by (subst m; apply Z.div_pos; lia).
  destruct (shr_1_nonneg m r s Hm0) as [H1 H2].
  unfold shifted. rewrite H1, H2, Hm. rewrite Z.pow_add_r by lia. change (2 ^ 1) with 2.
  split.
  - rewrite Z.div_div by lia. done.
  - rewrite Z.rem_mul_r by lia.
    pose proof (Z.mod_pos_bound P (2 ^ k) HT) as Hrem.
    rewrite Zmod_odd. destruct (Z.odd (P / 2 ^ k)); symmetry.
    + apply Z.leb_le. lia.
    + apply Z.leb_gt. lia.
Qed.

Lemma iter_pos_shifted (P : Z) (n : positive) (k : Z) (mrs : shr_record) :
  0 <= P -> 0 <= k -> shifted P k mrs -> shifted P (k + Z.pos n) (SpecFloat.iter_pos shr_1 n mrs).
Proof.
  intros HP. revert k mrs. induction n as [n IH|n IH|]; intros k mrs Hk Hs; cbn [SpecFloat.iter_pos].
  - replace (k + Z.pos n~1) with (k + 1 + Z.pos n + Z.pos n) by lia.
    apply IH; [lia|]. apply IH; [lia|]. by apply shr_1_shifted.
  - replace (k + Z.pos n~0) with (k + Z.pos n + Z.pos n) by lia.
    apply IH; [lia|]. by apply IH.
  - by apply shr_1_shifted.
Qed.

Lemma shifted_0 (P : Z) : shifted P 0 (Build_shr_record P false false).
Proof. split; cbn [shr_m shr_r]; [by rewrite Z.div_1_r|]. by rewrite Z.mod_1_r. Qed.

Lemma round_nearest_even_shr (mrs : shr_record) :
  let m1 := round_nearest_even (shr_m mrs) (loc_of_shr_record mrs) in
  shr_m mrs <= m1 <= shr_m mrs + 1 ∧
  (shr_r mrs = false -> m1 = shr_m mrs) ∧
  (shr_r mrs = true -> Z.odd (shr_m mrs) = true -> m1 = shr_m mrs + 1).
Proof.
  destruct mrs as [m [] []]; cbn [shr_m shr_r loc_of_shr_record round_nearest_even].
  - split; [lia|]. done.
  - rewrite <- Z.negb_odd. destruct (Z.odd m); cbn [negb]; split; try lia; done.
  - split; [lia|]. done.
  - split; [lia|]. done.
Qed.


(** The second alignment of [binary_round_aux]: it shifts once more exactly
    when the rounding carried into a 54th digit. *)
Lemma shr_fexp_carry (s : bool) (m1 k : Z) :
  2 ^ 52 <= m1 <= 2 ^ 53 -> 0 < k ->
  (let '(mrs, e) :=
     shr (Build_shr_record m1 false false) k (fexp prec emax (Zdigits2 m1 + k) - k) in
   match shr_m mrs with
   | 0 => S754_zero s
   | Z.pos m => if e <=? emax - prec then S754_finite s m e else S754_infinity s
   | Z.neg _ => S754_nan
   end) =
  let m := if m1 =? 2 ^ 53 then 2 ^ 52 else m1 in
  let e := if m1 =? 2 ^ 53 then k + 1 else k in
  if e <=? 971 then S754_finite s (Z.to_pos m) e else S754_infinity s.
Proof.
  intros Hm1 Hk. destruct (Z.eqb_spec m1 (2 ^ 53)) as [->|Hne].
  - change (Zdigits2 (2 ^ 53)) with 54.
    assert (fexp prec emax (54 + k) - k = 1) as -> by (unfold fexp, emin, prec, emax; lia).
    reflexivity.
  - destruct m1 as [|q|q]; [lia| |lia].
    assert (Z.pos (digits2_pos q) = 53) as Hq by (apply digits2_pos_eq; lia).
    cbn [Zdigits2]. rewrite Hq.
    assert (fexp prec emax (53 + k) - k = 0) as -> by (unfold fexp, emin, prec, emax; lia).
    reflexivity.
Qed.

(** Rounding an integer of more than 53 digits: the result is in range
    exactly below [2^1024 - 2^970], the midpoint between the largest binary64
    number and [2^1024]. *)
Lemma binary_round_large (s : bool) (p : positive) :
  2 ^ 53 <= Z.pos p ->
  (Z.pos p < 2 ^ 1024 - 2 ^ 970 ->
     ∃ m e, binary_round prec emax s p 0 = S754_finite s m e ∧
            valid_binary (S754_finite s m e) = true) ∧
  (2 ^ 1024 - 2 ^ 970 <= Z.pos p -> binary_round prec emax s p 0 = S754_infinity s).
Proof.
  intros Hp. pose proof (digits2_pos_bounds p) as [Hlo Hhi].
  unfold binary_round.
  set (d := Z.pos (digits2_pos p)) in *.
  assert (54 <= d) as Hd.
  { destruct (Z.le_gt_cases 54 d); [done|].
    assert (2 ^ d <= 2 ^ 53) by (apply Z.pow_le_mono_r; lia). lia. }
  assert (fexp prec emax (d + 0) = d - 53) as Hf by (unfold fexp, emin, prec, emax; lia).
  rewrite Hf. unfold shl_align.
  destruct (d - 53 - 0) as [|K|K] eqn:HK; [lia| |lia].
  unfold binary_round_aux, shr_fexp. cbn [Zdigits2]. fold d. rewrite Hf.
  replace (d - 53 - 0) with (Z.pos K) by lia. cbn [shr_record_of_loc shr].
  pose proof (iter_pos_shifted (Z.pos p) K 0 _ ltac:(lia) ltac:(lia) (shifted_0 (Z.pos p)))
    as [Hm Hr].
  set (mrs := SpecFloat.iter_pos shr_1 K _) in *.
  pose proof (round_nearest_even_shr mrs) as Hrne. cbn zeta in Hrne.
  set (m1 := round_nearest_even (shr_m mrs) (loc_of_shr_record mrs)) in *.
  rewrite Z.add_0_l in *.
  assert (d = Z.pos K + 53) as Hdk by lia.
  assert (0 < 2 ^ Z.pos K) as HT by (apply Z.pow_pos_nonneg; lia).
  assert (2 ^ (d - 1) = 2 ^ Z.pos K * 2 ^ 52) as Hlo'.
  { replace (d - 1) with (Z.pos K + 52) by lia. apply Z.pow_add_r; lia. }
  assert (2 ^ d = 2 ^ Z.pos K * 2 ^ 53) as Hhi'.
  { rewrite Hdk. apply Z.pow_add_r; lia. }
  rewrite Hlo' in Hlo. rewrite Hhi' in Hhi.
  assert (2 ^ 52 <= shr_m mrs < 2 ^ 53) as Hmb.
  { rewrite Hm. split.
    - apply Z.div_le_lower_bound; lia.
    - apply Z.div_lt_upper_bound; lia. }
  rewrite shr_fexp_carry by lia. cbn zeta.
  destruct Hrne as (Hb & Hdown & Hup).
  assert ((if m1 =? 2 ^ 53 then Z.pos K + 1 else Z.pos K) <= 971 <->
          Z.pos p < 2 ^ 1024 - 2 ^ 970) as Hkey.
  { destruct (Z.lt_trichotomy (Z.pos K) 971) as [Hlt|[Heq|Hgt]].
    - assert (2 ^ d <= 2 ^ 1023) as Hle by (apply Z.pow_le_mono_r; lia).
      rewrite Hhi' in Hle. split; [lia|]. destruct (m1 =? 2 ^ 53); lia.
    - rewrite Heq in *.
      pose proof (Z.div_mod (Z.pos p) (2 ^ 971) ltac:(lia)) as Hdm.
      pose proof (Z.mod_pos_bound (Z.pos p) (2 ^ 971) ltac:(lia)) as Hrem.
      rewrite <- Hm in Hdm.
      destruct (Z.eqb_spec m1 (2 ^ 53)) as [Hc|Hc].
      + split; [lia|]. intros Hlt. exfalso.
        destruct (shr_r mrs) eqn:Hrr.
        * symmetry in Hr. apply Z.leb_le in Hr. lia.
        * specialize (Hdown eq_refl). lia.
      + split; [|lia]. intros _.
        destruct (Z.lt_ge_cases (Z.pos p) (2 ^ 1024 - 2 ^ 970)) as [|Hge]; [done|].
        exfalso. assert (shr_m mrs = 2 ^ 53 - 1) as Hmm by lia.
        assert (shr_r mrs = true) as Hrr.
        { rewrite Hr. apply Z.leb_le. lia. }
        apply Hc. rewrite (Hup Hrr); rewrite Hmm; [lia | reflexivity].
    - assert (2 ^ 1024 <= 2 ^ (d - 1)) as Hle by (apply Z.pow_le_mono_r; lia).
      rewrite Hlo' in Hle. split; [|lia]. destruct (m1 =? 2 ^ 53); lia. }
  split.
  - intros Hlt. apply Hkey, Z.leb_le in Hlt. rewrite Hlt.
    eexists _, _. split; [reflexivity|].
    unfold valid_binary, SpecFloat.valid_binary, bounded, canonical_mantissa.
    apply andb_true_intro. split; [|exact Hlt].
    apply Z.eqb_eq. destruct (Z.eqb_spec m1 (2 ^ 53)) as [Hc|Hc].
    + change (Z.pos (digits2_pos (Z.to_pos (2 ^ 52)))) with 53.
      unfold fexp, emin, prec, emax. lia.
    + destruct m1 as [|q|q]; [lia| |lia]. cbn [Z.to_pos].
      rewrite (digits2_pos_eq q 53) by lia.
      unfold fexp, emin, prec, emax. lia.
  - intros Hge.
    destruct (Z.leb_spec (if m1 =? 2 ^ 53 then Z.pos K + 1 else Z.pos K) 971) as [Hle|];
      [|done].
    apply Hkey in Hle. lia.
Qed.

Lemma binary_round_cases (s : bool) (p : positive) :
  Z.pos p < 2 ^ 1024 - 2 ^ 970 ∧
    (∃ m e, Prim2SF (SF2Prim (binary_round prec emax s p 0)) = S754_finite s m e)
  ∨ 2 ^ 1024 - 2 ^ 970 <= Z.pos p ∧
    Prim2SF (SF2Prim (binary_round prec emax s p 0)) = S754_infinity s.
Proof.
  destruct (Z.lt_ge_cases (Z.pos p) (2 ^ 53)) as [Hsmall|Hbig].
  - left. split; [lia|].
    destruct (binary_round_small s p Hsmall) as (m & e & -> & Hv & _).
    exists m, e. by apply Prim2SF_SF2Prim.
  - destruct (binary_round_large s p Hbig) as [Hfin Hinf].
    destruct (Z.lt_ge_cases (Z.pos p) (2 ^ 1024 - 2 ^ 970)) as [Hlt|Hge].
    + left. split; [done|]. destruct (Hfin Hlt) as (m & e & -> & Hv).
      exists m, e. by apply Prim2SF_SF2Prim.
    + right. split; [done|]. rewrite (Hinf Hge). by apply Prim2SF_SF2Prim.
Qed.

(** The ints that convert are exactly those below [2^1024 - 2^970] in
    magnitude. *)
Lemma int_fits_float_iff (z : Z) :
  int_fits_float z = true <-> Z.abs z < 2 ^ 1024 - 2 ^ 970.
Proof.
  unfold int_fits_float, is_infinity, float_of_int.
  rewrite FloatAxioms.eqb_spec, abs_spec.
  destruct z as [|p|p]; cbn [binary_normalize].
  - split; [lia|]. reflexivity.
  - destruct (binary_round_cases false p) as [[Hlt (m & e & ->)]|[Hge ->]].
    + split; [lia|]. reflexivity.
    + split; [discriminate|lia].
  - destruct (binary_round_cases true p) as [[Hlt (m & e & ->)]|[Hge ->]].
    + split; [lia|]. reflexivity.
    + split; [discriminate|lia].
Qed.

Lemma float_of_int_finite (z : Z) :
  Z.abs z < 2 ^ 53 ->
  Prim2SF (float_of_int z) = S754_zero false ∨
  ∃ s m e, Prim2SF (float_of_int z) = S754_finite s m e ∧
           e <= 0 ∧ cond_Zopp s (Z.pos m) = z * 2 ^ (- e).
Proof.
  intros Hz. unfold float_of_int.
  destruct z as [|p|p]; cbn [binary_normalize].
  - by left.
  - right. destruct (binary_round_small false p ltac:(lia)) as (m & e & -> & Hv & He & Hm).
    exists false, m, e. rewrite Prim2SF_SF2Prim by done. cbn [cond_Zopp]. done.
  - right. destruct (binary_round_small true p ltac:(lia)) as (m & e & -> & Hv & He & Hm).
    exists true, m, e. rewrite Prim2SF_SF2Prim by done. cbn [cond_Zopp]. split; [done|].
    split; [done|]. lia.
Qed.

(** Below 2^53 in magnitude the conversion is exact: the float is the
    integer. *)
Lemma float_of_int_exact (z : Z) :
  Z.abs z < 2 ^ 53 -> int_of_float (float_of_int z) = Some z.
Proof.
  intros Hz. unfold int_of_float.
  destruct (float_of_int_finite z Hz) as [H0|(s & m & e & -> & He & Hm)].
  - rewrite H0. unfold float_of_int in H0. destruct z as [|p|p]; [done|exfalso..];
      cbn [binary_normalize] in H0.
    + destruct (binary_round_small false p ltac:(lia)) as (m & e & Hr & Hv & _).
      rewrite Hr, Prim2SF_SF2Prim in H0 by done. discriminate.
    + destruct (binary_round_small true p ltac:(lia)) as (m & e & Hr & Hv & _).
      rewrite Hr, Prim2SF_SF2Prim in H0 by done. discriminate.
  - destruct (Z.leb_spec e 0); [|lia].
    assert (Z.pos m = Z.abs z * 2 ^ (- e)) as ->.
    { destruct s; cbn [cond_Zopp] in Hm; nia. }
    rewrite Z.mod_mul, Z.div_mul by lia. rewrite Z.eqb_refl. f_equal.
    destruct s; cbn [cond_Zopp] in *; nia.
Qed.

(** Such an integer converts: the multiplication by it does not raise. *)
Lemma int_fits_float_small (z : Z) :
  Z.abs z < 2 ^ 53 -> int_fits_float z = true.
Proof.
  intros Hz. unfold int_fits_float, is_infinity.
  rewrite FloatAxioms.eqb_spec, abs_spec.
  destruct (float_of_int_finite z Hz) as [->|(s & m & e & -> & _)]; reflexivity.
Qed.

Lemma float_mul_int_fits (x : float) (n : Z) :
  int_fits_float n = true -> float_mul_int x n = Ok (x * float_of_int n)%float.
Proof. intros H. unfold float_mul_int. by rewrite H. Qed.

(** The edge of the conversion: the largest int that converts gives the
    largest binary64 number; the next one, and [10^400], raise. *)
Example float_mul_int_edge :
  float_mul_int 1 (2 ^ 1024 - 2 ^ 970 - 1) = Ok 0x1.fffffffffffffp+1023%float ∧
  float_mul_int 1 (2 ^ 1024 - 2 ^ 970) =
    Raise (Exc OverflowError "int too large to convert to float") ∧
  float_mul_int 1 (- (2 ^ 1024 - 2 ^ 970)) =
    Raise (Exc OverflowError "int too large to convert to float") ∧
  float_mul_int 10.0 (10 ^ 400) =
    Raise (Exc OverflowError "int too large to convert to float") ∧
  float_mul_int 0 (2 ^ 62) = Ok 0%float.
Proof. repeat split; by vm_compute. Qed.

Lemma in_shop_fits (id : Z) :
  id ∈ [1; 2] -> ∃ r, shop !! id = Some r ∧ int_fits_float (cantidad r) = true.
Proof.
  intros Hid. apply elem_of_cons in Hid as [->|Hid]; [by eexists|].
  apply elem_of_cons in Hid as [->|Hid]; [by eexists|].
  by apply elem_of_nil in Hid.
Defined.

(** C2: on records whose quantity Python can convert to a float (every int
    below [2^1024 - 2^970] in magnitude), [_compute_subtotal] returns and every
    record of the set has [subtotal = precio_unitario * cantidad], the value
    of Python's product of its own price and quantity: one correctly rounded
    binary64 multiplication, as the IEEE specification [SF64mul] gives it, of
    the price and the converted quantity, which below 2^53 is the quantity
    itself.  Nothing else of the record and no other record changes. *)
Theorem compute_subtotal_exact (self : list Z) (st : store) :
  (∀ id, id ∈ self -> ∃ r, st !! id = Some r ∧ int_fits_float (cantidad r) = true) ->
  ∃ st', _compute_subtotal self st = Ok (tt, st') ∧
    (∀ id r, id ∈ self -> st !! id = Some r ->
       ∃ r', st' !! id = Some r' ∧
         r' = set_subtotal (precio_unitario r * float_of_int (cantidad r))%float r ∧
         float_mul_int (precio_unitario r) (cantidad r) = Ok (subtotal r') ∧
         subtotal r' = (precio_unitario r' * float_of_int (cantidad r'))%float ∧
         Prim2SF (subtotal r') =
           SF64mul (Prim2SF (precio_unitario r')) (Prim2SF (float_of_int (cantidad r'))) ∧
         (Z.abs (cantidad r') < 2 ^ 53 ->
            int_of_float (float_of_int (cantidad r')) = Some (cantidad r'))) ∧
    (∀ id, id ∉ self -> st' !! id = st !! id).
Proof.
  intros Hall. exists (assigned _compute_subtotal_body self st).
  assert (∀ id, id ∈ self -> is_Some (st !! id)) as Hex.
  { intros id Hid. destruct (Hall id Hid) as (r & -> & _). by eexists. }
  split; [by apply for_each_assign_run|]. split.
  - intros id r Hid Hr. eexists. split.
    + rewrite assigned_inside by (done || apply _compute_subtotal_body_idem).
      by rewrite Hr.
    + destruct (Hall id Hid) as (r0 & Hr0 & Hfits).
      assert (r0 = r) as -> by congruence.
      split; [done|]. split; [by apply float_mul_int_fits|].
      split; [done|]. split; [cbn; apply mul_spec|].
      apply float_of_int_exact.
  - intros id Hid. by apply assigned_outside.
Qed.

Lemma compute_subtotal_exact_witness :
  ∃ st', _compute_subtotal [1; 2] shop = Ok (tt, st') ∧
    (∀ id r, id ∈ [1; 2] -> shop !! id = Some r ->
       ∃ r', st' !! id = Some r' ∧
         r' = set_subtotal (precio_unitario r * float_of_int (cantidad r))%float r ∧
         float_mul_int (precio_unitario r) (cantidad r) = Ok (subtotal r') ∧
         subtotal r' = (precio_unitario r' * float_of_int (cantidad r'))%float ∧
         Prim2SF (subtotal r') =
           SF64mul (Prim2SF (precio_unitario r')) (Prim2SF (float_of_int (cantidad r'))) ∧
         (Z.abs (cantidad r') < 2 ^ 53 ->
            int_of_float (float_of_int (cantidad r')) = Some (cantidad r'))) ∧
    (∀ id, id ∉ [1; 2] -> st' !! id = shop !! id).
Proof. exact (compute_subtotal_exact [1; 2] shop in_shop_fits). Defined.

Example compute_subtotal_gadget :
  ∃ st', _compute_subtotal [2] shop = Ok (tt, st') ∧
         subtotal <$> st' !! 2 = Some 10.0%float.
Proof. eexists. split; reflexivity. Qed.

Lemma schedule_computed_fields :
  schedule (length computed_fields) computed_fields = computed_fields.
Proof. reflexivity. Qed.

Lemma mentions_true (names : list string) (name : string) :
  name ∈ names -> mentions names name = true.
Proof. intros H. by apply bool_decide_eq_true_2. Qed.

(** A change to the price schedules both computations, subtotal first. *)
Lemma recompute_plan_precio (changed : list string) :
  "precio_unitario" ∈ changed -> recompute_plan changed = computed_fields.
Proof.
  intros Hin. unfold recompute_plan. rewrite schedule_computed_fields.
  unfold computed_fields. cbn [triggered depends field existsb].
  rewrite (mentions_true changed "precio_unitario" Hin). cbn [orb].
  rewrite (mentions_true ("subtotal" :: changed) "subtotal") by (by left).
  reflexivity.
Qed.

Lemma assigned_is_Some (f : Producto -> Producto) (self : list Z) (st : store) (id : Z) :
  is_Some (st !! id) -> is_Some (assigned f self st !! id).
Proof.
  revert st. induction self as [|a self IH]; intros st Hs; [done|].
  cbn. apply IH. rewrite lookup_alter.
  destruct (decide (a = id)) as [->|]; [|done].
  destruct Hs as [r ->]. by eexists.
Qed.

(** C3: [_compute_total] gives every record [total = subtotal * (1 + iva / 100)];
    a change of the price schedules [_compute_subtotal] and then
    [_compute_total]; and on records whose quantity Python can convert to a
    float the pass returns, and afterwards both derived fields of every record
    agree with its price, quantity and tax. *)
Theorem recompute_total_after_subtotal (changed : list string) (self : list Z) (st : store) :
  "precio_unitario" ∈ changed ->
  (∀ id, id ∈ self -> is_Some (st !! id)) ->
  (∃ st1, _compute_total self st = Ok (tt, st1) ∧
     ∀ id r, id ∈ self -> st !! id = Some r ->
       st1 !! id = Some (set_total (subtotal r * (1 + iva r / 100))%float r)) ∧
  field <$> recompute_plan changed = ["subtotal"; "total"] ∧
  ((∀ id r, id ∈ self -> st !! id = Some r -> int_fits_float (cantidad r) = true) ->
   ∃ st', recompute changed self st = Ok (tt, st') ∧
     (∀ id r, id ∈ self -> st !! id = Some r ->
        ∃ r', st' !! id = Some r' ∧
          r' = _compute_total_body (_compute_subtotal_body r) ∧
          float_mul_int (precio_unitario r) (cantidad r) = Ok (subtotal r') ∧
          subtotal r' = (precio_unitario r' * float_of_int (cantidad r'))%float ∧
          total r' = (subtotal r' * (1 + iva r' / 100))%float) ∧
     (∀ id, id ∉ self -> st' !! id = st !! id)).
Proof.
  intros Hin Hall. split; [|split].
  - exists (assigned _compute_total_body self st).
    split; [by apply for_each_assign_run|].
    intros id r Hid Hr.
    rewrite assigned_inside by (done || apply _compute_total_body_idem).
    by rewrite Hr.
  - by rewrite recompute_plan_precio.
  - intros Hfits. unfold recompute. rewrite (recompute_plan_precio _ Hin).
    unfold computed_fields. cbn [for_each method].
    unfold bind, _compute_subtotal, _compute_total.
    rewrite (for_each_assign_run _ self st Hall).
    rewrite for_each_assign_run by (intros; by apply assigned_is_Some, Hall).
    eexists. split; [reflexivity|]. split.
    + intros id r Hid Hr. eexists. split.
      * rewrite assigned_inside by (done || apply _compute_total_body_idem).
        rewrite assigned_inside by (done || apply _compute_subtotal_body_idem).
        by rewrite Hr.
      * split; [done|]. split; [|done].
        by apply float_mul_int_fits, (Hfits id).
    + intros id Hid. by rewrite !assigned_outside.
Qed.

Lemma precio_changed : "precio_unitario" ∈ ["precio_unitario"].
Proof. by left. Defined.

Lemma shop_fits (id : Z) (r : Producto) :
  id ∈ [1; 2] -> shop !! id = Some r -> int_fits_float (cantidad r) = true.
Proof.
  intros Hid Hr. destruct (in_shop_fits id Hid) as (r0 & Hr0 & Hfits).
  by replace r with r0 by congruence.
Defined.

Lemma recompute_total_after_subtotal_witness :
  (∃ st1, _compute_total [1; 2] shop = Ok (tt, st1) ∧
     ∀ id r, id ∈ [1; 2] -> shop !! id = Some r ->
       st1 !! id = Some (set_total (subtotal r * (1 + iva r / 100))%float r)) ∧
  field <$> recompute_plan ["precio_unitario"] = ["subtotal"; "total"] ∧
  ∃ st', recompute ["precio_unitario"] [1; 2] shop = Ok (tt, st') ∧
    (∀ id r, id ∈ [1; 2] -> shop !! id = Some r ->
       ∃ r', st' !! id = Some r' ∧
         r' = _compute_total_body (_compute_subtotal_body r) ∧
         float_mul_int (precio_unitario r) (cantidad r) = Ok (subtotal r') ∧
         subtotal r' = (precio_unitario r' * float_of_int (cantidad r'))%float ∧
         total r' = (subtotal r' * (1 + iva r' / 100))%float) ∧
    (∀ id, id ∉ [1; 2] -> st' !! id = shop !! id).
Proof.
  destruct (recompute_total_after_subtotal ["precio_unitario"] [1; 2] shop
              precio_changed in_shop) as (Htotal & Hplan & Hpass).
  exact (conj Htotal (conj Hplan (Hpass shop_fits))).
Defined.

(** The scenario of the specification: price 10.0, quantity 1, tax 21 give
    subtotal 10.0 and total 12.1. *)
Example recompute_widget :
  ∃ st', recompute ["precio_unitario"] [1] (<[1 := set_total 0 (set_subtotal 0 widget)]> ∅) = Ok (tt, st') ∧
         st' !! 1 = Some widget.
Proof. eexists. split; reflexivity. Qed.

(** ** Validation and commit *)

Lemma check_valores_cons (a : Z) (self : list Z) (st : store) (r : Producto) :
  st !! a = Some r ->
  _check_valores (a :: self) st =
    if (precio_unitario r <? 0)%float
    then Raise (Exc ValueError "El precio unitario no puede ser negativo")
    else if cantidad r <? 0
         then Raise (Exc ValueError "La cantidad no puede ser negativa")
         else _check_valores self st.
Proof.
  intros Hr. unfold _check_valores. cbn [for_each].
  unfold bind, browse, _check_valores_body. rewrite Hr.
  destruct (precio_unitario r <? 0)%float; [done|].
  destruct (cantidad r <? 0); done.
Qed.

(** On records that exist, [_check_valores] either passes, and then no test
    fires on any of them, or raises on a record on which a test fires. *)
Lemma check_valores_cases (self : list Z) (st : store) :
  (∀ id, id ∈ self -> is_Some (st !! id)) ->
  (_check_valores self st = Ok (tt, st) ∧
     ∀ id r, id ∈ self -> st !! id = Some r -> valores_ok r)
  ∨ (∃ e id r, _check_valores self st = Raise e ∧
       id ∈ self ∧ st !! id = Some r ∧ offending r e).
Proof.
  induction self as [|a self IH]; intros Hall.
  { left. split; [done|]. intros id r Hid. by apply elem_of_nil in Hid. }
  destruct (Hall a) as [ra Ha]; [by left|].
  rewrite (check_valores_cons _ _ _ _ Ha).
  destruct (precio_unitario ra <? 0)%float eqn:Hp.
  { right. exists (Exc ValueError "El precio unitario no puede ser negativo"), a, ra.
    repeat split; [by left | done | by left]. }
  destruct (cantidad ra <? 0) eqn:Hq.
  { right. exists (Exc ValueError "La cantidad no puede ser negativa"), a, ra.
    repeat split; [by left | done |]. right. repeat split; [done | lia]. }
  destruct IH as [[Hok Hall']|(e & id & r & He & Hid & Hr & Hoff)].
  - intros id Hid. apply Hall. by right.
  - left. split; [done|]. intros id r Hid Hr.
    apply elem_of_cons in Hid as [->|Hid]; [|by eapply Hall'].
    rewrite Ha in Hr. injection Hr as <-. split; [done | lia].
  - right. exists e, id, r. repeat split; [done | by right | done | done].
Qed.

Lemma offending_not_ok (r : Producto) (e : exception) :
  offending r e -> valores_ok r -> False.
Proof.
  intros [[Hp _]|(_ & Hq & _)] [Hp' Hq']; [congruence | lia].
Qed.

Lemma offending_ValueError (r : Producto) (e : exception) :
  offending r e -> exc_type e = ValueError.
Proof. by intros [[_ ->]|(_ & _ & ->)]. Qed.

(** For a price that is a number, "no test fires" is "price and quantity are
    at least zero". *)
Lemma valores_ok_nonneg (r : Producto) :
  (precio_unitario r =? precio_unitario r)%float = true ->
  valores_ok r <-> (0 <=? precio_unitario r)%float = true ∧ 0 ≤ cantidad r.
Proof.
  intros Hnum. unfold valores_ok.
  assert ((precio_unitario r <? 0)%float = false <-> (0 <=? precio_unitario r)%float = true) as ->; [|done].
  revert Hnum. rewrite FloatAxioms.eqb_spec, FloatAxioms.ltb_spec, FloatAxioms.leb_spec.
  replace (Prim2SF 0) with (S754_zero false) by reflexivity.
  destruct (Prim2SF (precio_unitario r)) as [s|s| |s m e]; try destruct s; cbn; intuition congruence.
Qed.

(** ** Rows survive the staging of an operation *)

Lemma keeps_ret {A} (a : A) : keeps_rows (ret a).
Proof. intros st a' st' [= <- <-] id H. done. Qed.

Lemma keeps_raise {A} (e : exception) : keeps_rows (@raise A e).
Proof. intros st a st' H. discriminate. Qed.

Lemma keeps_bind {A B} (m : orm A) (k : A -> orm B) :
  keeps_rows m -> (∀ a, keeps_rows (k a)) -> keeps_rows (bind m k).
Proof.
  intros Hm Hk st b st' Hrun id Hid. unfold bind in Hrun.
  destruct (m st) as [[a st1]|e] eqn:Hmst; [|discriminate].
  eapply Hk; [exact Hrun|]. eapply Hm; [exact Hmst | exact Hid].
Qed.

Lemma keeps_browse (id : Z) : keeps_rows (browse id).
Proof.
  intros st r st' Hrun j Hj. unfold browse in Hrun.
  destruct (st !! id); [|discriminate]. by injection Hrun as _ <-.
Qed.

Lemma keeps_insert (id : Z) (r : Producto) :
  keeps_rows (fun st => Ok (tt, <[id := r]> st)).
Proof.
  intros st [] st' [= <-] j Hj. rewrite lookup_insert.
  destruct (decide (id = j)); [by eexists | done].
Qed.

Lemma keeps_for_each {A} (body : A -> orm unit) (l : list A) :
  (∀ x, keeps_rows (body x)) -> keeps_rows (for_each body l).
Proof.
  intros Hbody. induction l as [|x l IH]; [apply keeps_ret|].
  cbn [for_each]. apply keeps_bind; [apply Hbody | intros _; apply IH].
Qed.

Lemma keeps_assign (id : Z) (f : Producto -> Producto) : keeps_rows (assign id f).
Proof.
  unfold assign. apply keeps_bind; [apply keeps_browse|].
  intros r. apply keeps_insert.
Qed.

Lemma keeps_check_keys (vals : gmap string value) : keeps_rows (check_keys vals).
Proof.
  unfold check_keys. destruct (decide _); [apply keeps_ret | apply keeps_raise].
Qed.

Lemma keeps_check_unique (id : Z) : keeps_rows (check_unique id).
Proof.
  unfold check_unique. apply keeps_bind; [apply keeps_browse|].
  intros r st [] st' Hrun j Hj.
  destruct (name_taken id (nombre r) st); [discriminate|]. by injection Hrun as <-.
Qed.

Lemma triggered_subseteq (dirty : list string) (order : list computed) :
  triggered dirty order ⊆ order.
Proof.
  revert dirty. induction order as [|c cs IH]; intros dirty; [done|].
  cbn [triggered]. destruct (existsb _ _).
  - apply list_subseteq_skip, IH.
  - apply list_subseteq_cons, IH.
Qed.

Lemma keeps_recompute (changed : list string) (self : list Z) :
  keeps_rows (recompute changed self).
Proof.
  unfold recompute.
  assert (∀ l, l ⊆ computed_fields -> keeps_rows (for_each (fun c => method c self) l)) as Hl.
  { induction l as [|c l IH]; intros Hsub; [apply keeps_ret|].
    cbn [for_each]. apply keeps_bind.
    - assert (c ∈ computed_fields) as Hc by (apply Hsub; by left).
      unfold computed_fields in Hc.
      apply elem_of_cons in Hc as [->|Hc]; [|apply elem_of_cons in Hc as [->|Hc]].
      + apply keeps_for_each. intros id. apply keeps_assign.
      + apply keeps_for_each. intros id. apply keeps_assign.
      + by apply elem_of_nil in Hc.
    - intros _. apply IH. intros x Hx. apply Hsub. by right. }
  apply Hl. unfold recompute_plan. rewrite schedule_computed_fields.
  apply triggered_subseteq.
Qed.

(** A loop that reads each record before it touches it ends with every
    record of the set in the table. *)
Lemma for_each_browse_exist (k : Z -> Producto -> orm unit) (self : list Z)
    (st st' : store) :
  (∀ id r, keeps_rows (k id r)) ->
  for_each (fun id => let* r := browse id in k id r) self st = Ok (tt, st') ->
  ∀ id, id ∈ self -> is_Some (st' !! id).
Proof.
  intros Hk. revert st. induction self as [|a self IH]; intros st Hrun id Hid.
  { by apply elem_of_nil in Hid. }
  cbn [for_each] in Hrun. unfold bind at 1 in Hrun.
  destruct ((let* r := browse a in k a r) st) as [[[] st1]|e] eqn:Hhead; [|discriminate].
  apply elem_of_cons in Hid as [->|Hid]; [|by eapply IH].
  assert (is_Some (st1 !! a)) as Ha.
  { unfold bind, browse in Hhead. destruct (st !! a) as [r|] eqn:Hr; [|discriminate].
    eapply Hk; [exact Hhead | by eexists]. }
  eapply keeps_for_each; [|exact Hrun | exact Ha].
  intros x. apply keeps_bind; [apply keeps_browse | apply Hk].
Qed.

Lemma update_rows_exist (self : list Z) (vals : gmap string value) (st st1 : store) :
  update_rows self vals st = Ok (tt, st1) -> ∀ id, id ∈ self -> is_Some (st1 !! id).
Proof.
  intros Hrun id Hid. unfold update_rows in Hrun.
  unfold bind at 1 in Hrun.
  destruct (check_keys vals st) as [[[] st0]|e] eqn:Hkeys; [|discriminate].
  unfold bind at 1 in Hrun.
  match type of Hrun with
  | context [for_each ?body self st0] =>
      destruct (for_each body self st0) as [[[] st2]|e] eqn:Hloop; [|discriminate]
  end.
  assert (is_Some (st2 !! id)) as H2.
  { eapply (for_each_browse_exist
              (fun id r st => match convert_all stored_fields vals r with
                              | Ok r' => Ok (tt, <[id := r']> st)
                              | Raise e => Raise e
                              end)); [|exact Hloop | exact Hid].
    intros j r s [] s' Hs k Hk. destruct (convert_all _ _ _); [|discriminate].
    injection Hs as <-. rewrite lookup_insert.
    destruct (decide (j = k)); [by eexists | done]. }
  assert (keeps_rows
            ((if mentions (elements (dom vals)) "nombre"
              then for_each check_unique self else ret tt) >>
             recompute (elements (dom vals)) self)) as Hrest.
  { apply keeps_bind; [|intros _; apply keeps_recompute].
    destruct (mentions _ _); [|apply keeps_ret].
    apply keeps_for_each. intros x. apply keeps_check_unique. }
  eapply Hrest; [exact Hrun | exact H2].
Qed.

Lemma insert_row_exist (vals : gmap string value) (st st1 : store) (ids : list Z) :
  insert_row vals st = Ok (ids, st1) -> ∀ id, id ∈ ids -> is_Some (st1 !! id).
Proof.
  intros Hrun id Hid. unfold insert_row in Hrun. unfold bind at 1 in Hrun.
  destruct (check_keys vals st) as [[[] st0]|e] eqn:Hkeys; [|discriminate].
  destruct (_ !! "nombre"); [|discriminate].
  destruct (convert_all _ _ _) as [r|e]; [|discriminate].
  unfold bind at 1 in Hrun.
  destruct (check_unique _ _) as [[[] st2]|e] eqn:Huniq; [|discriminate].
  unfold bind at 1 in Hrun.
  destruct (recompute _ _ st2) as [[[] st3]|e] eqn:Hrec; [|discriminate].
  injection Hrun as <- <-. apply list_elem_of_singleton in Hid as ->.
  eapply keeps_recompute; [exact Hrec|].
  eapply keeps_check_unique; [exact Huniq|].
  rewrite lookup_insert_eq. by eexists.
Qed.

Lemma stage_exist (op : operation) (st st1 : store) (ids : list Z) :
  stage op st = Ok (ids, st1) -> ∀ id, id ∈ ids -> is_Some (st1 !! id).
Proof.
  destruct op as [vals|self vals]; cbn [stage].
  - apply insert_row_exist.
  - unfold bind. destruct (update_rows self vals st) as [[[] st2]|e] eqn:Hup; [|discriminate].
    intros [= <- <-]. by eapply update_rows_exist.
Qed.

(** An operation is its staging, then the validation of the fields it
    wrote, then its result. *)
Lemma run_stage (op : operation) (st : store) :
  run op st =
    match stage op st with
    | Ok (ids, st1) =>
        match _validate_fields ids (written op) st1 with
        | Ok (_, st2) => Ok (returned op ids, st2)
        | Raise e => Raise e
        end
    | Raise e => Raise e
    end.
Proof.
  destruct op as [vals|self vals]; cbn [run stage written returned].
  - unfold create, base_create, bind, ret.
    destruct (insert_row vals st) as [[ids st1]|e]; [|done].
    destruct (_validate_fields _ _ _) as [[[] st2]|e]; done.
  - unfold write, base_write, bind, ret.
    destruct (update_rows self vals st) as [[[] st1]|e]; [|done].
    destruct (_validate_fields _ _ _) as [[[] st2]|e]; done.
Qed.

Lemma validate_fields_run (ids : list Z) (names : list string) (st : store) :
  _validate_fields ids names st =
    if existsb (mentions names) _check_valores_constrains
    then _check_valores ids st else Ok (tt, st).
Proof. unfold _validate_fields. by destruct (existsb _ _). Qed.

(** C1 (as the code has it): an operation whose rows were staged into [st1]
    and that writes the price or the quantity commits if and only if neither
    test of [_check_valores] fires on an affected record; it then keeps
    [st1].  Otherwise it raises a [ValueError] whose message is that of the
    test that fired on some affected record, and the table is the one before
    the operation.  An operation that writes neither field is not validated,
    and one whose staging raises leaves the table as it was. *)
Theorem commit_validates (op : operation) (st : store) :
  match stage op st with
  | Raise e => commit (run op) st = (Raise e, st)
  | Ok (ids, st1) =>
      if validated op then
        ((∃ v st', commit (run op) st = (Ok v, st')) <->
           (∀ id r, id ∈ ids -> st1 !! id = Some r -> valores_ok r)) ∧
        (∀ v st', commit (run op) st = (Ok v, st') ->
           v = returned op ids ∧ st' = st1) ∧
        (∀ e st', commit (run op) st = (Raise e, st') ->
           st' = st ∧ exc_type e = ValueError ∧
           ∃ id r, id ∈ ids ∧ st1 !! id = Some r ∧ offending r e)
      else commit (run op) st = (Ok (returned op ids), st1)
  end.
Proof.
  unfold commit. rewrite run_stage.
  destruct (stage op st) as [[ids st1]|e] eqn:Hstage; [|done].
  rewrite validate_fields_run. unfold validated.
  destruct (existsb _ _); [|done].
  destruct (check_valores_cases ids st1 (stage_exist _ _ _ _ Hstage))
    as [[Hok Hall]|(e & id & r & He & Hid & Hr & Hoff)].
  - rewrite Hok. split; [|split].
    + split; [done|]. intros _. by do 2 eexists.
    + by intros v st' [= <- <-].
    + intros e st' [=].
  - rewrite He. split; [|split].
    + split.
      * intros (v & st' & [=]).
      * intros Hall. destruct (offending_not_ok r e Hoff). by eapply Hall.
    + intros v st' [=].
    + intros e' st' [= <- <-]. split; [done|].
      split; [by eapply offending_ValueError|]. by exists id, r.
Qed.

(** C1, the claim as stated fails: a negative price is refused with a
    [ValueError], not a [ValidationError]; the exception is the same
    whichever record offends; and a price that is not a number is committed
    although it is not at least zero. *)
Lemma commit_error_kind_counterexample :
  ¬ spec_commit_claim (price_update 1 (-1)) shop ∧
  commit (run (price_update 1 (-1))) shop =
    (Raise (Exc ValueError "El precio unitario no puede ser negativo"), shop) ∧
  commit (run (price_update 2 (-1))) shop =
    (Raise (Exc ValueError "El precio unitario no puede ser negativo"), shop) ∧
  ¬ spec_commit_claim (price_update 1 nan) shop ∧
  (commit (run (price_update 1 nan)) shop).1 = Ok (VBool true) ∧
  precio_unitario <$> (commit (run (price_update 1 nan)) shop).2 !! 1 = Some nan.
Proof.
  split; [|split; [|split; [|split; [|split]]]].
  - intros Hclaim.
    destruct (Hclaim [1] (<[1 := _compute_total_body (_compute_subtotal_body
                                    (set_precio_unitario (-1) widget))]> shop))
      as [_ Hraise]; [by vm_compute|].
    destruct Hraise as [msg Hmsg]; [|by vm_compute in Hmsg].
    eexists 1, _. split; [by left|]. split; [by vm_compute|]. by left.
  - by vm_compute.
  - by vm_compute.
  - intros Hclaim.
    destruct (Hclaim [1] (<[1 := _compute_total_body (_compute_subtotal_body
                                    (set_precio_unitario nan widget))]> shop))
      as [[Hok _] _]; [by vm_compute|].
    destruct (Hok ltac:(by vm_compute; do 2 eexists) 1 _ ltac:(by left) ltac:(by vm_compute))
      as [Hp _].
    by vm_compute in Hp.
  - by vm_compute.
  - by vm_compute.
Qed.

(** The three cases of a commit on the sample table. *)
Example commit_examples :
  commit (run (OpCreate {["nombre" := VStr "Bolt"]})) shop =
    (Ok (VRecordset [3]), <[3 := set_nombre "Bolt" widget]> shop) ∧
  commit (run (OpCreate (<["cantidad" := VInt (-1)]> {["nombre" := VStr "Bolt"]}))) shop =
    (Raise (Exc ValueError "La cantidad no puede ser negativa"), shop) ∧
  commit (run (OpWrite [1; 2] {["cantidad" := VInt (-1)]})) shop =
    (Raise (Exc ValueError "La cantidad no puede ser negativa"), shop) ∧
  commit (run (OpCreate {["nombre" := VStr "Widget"]})) shop =
    (Raise (Exc IntegrityError "El nombre del producto debe ser único"), shop) ∧
  validated (OpWrite [1] {["activo" := VBool false]}) = false.
Proof. repeat split; by vm_compute. Qed.

(** ** The form-side recomputation *)

(** C4: [_onchange_subtotal] works on the draft alone and recomputes its
    subtotal only when price and quantity are both truthy: there it assigns
    what [_compute_subtotal] gives a row with the same values, the value of
    Python's product.  When the price or the quantity is zero it assigns
    nothing and the draft keeps the subtotal it had, whatever
    [_compute_subtotal] gives for these values.  The quantity is one that
    Python can convert to a float. *)
Theorem onchange_subtotal_guard (draft : Producto) (id : Z) (st : store) :
  int_fits_float (cantidad draft) = true ->
  (∃ st', _compute_subtotal [id] (<[id := draft]> st) = Ok (tt, st') ∧
          st' !! id = Some (_compute_subtotal_body draft) ∧
          float_mul_int (precio_unitario draft) (cantidad draft) =
            Ok (subtotal (_compute_subtotal_body draft))) ∧
  (float_truthy (precio_unitario draft) = true ->
   int_truthy (cantidad draft) = true ->
   _onchange_subtotal draft = _compute_subtotal_body draft) ∧
  (float_truthy (precio_unitario draft) = false ∨ int_truthy (cantidad draft) = false ->
   _onchange_subtotal draft = draft) ∧
  (cantidad draft = 0 ->
   subtotal (_onchange_subtotal draft) = subtotal draft ∧
   subtotal (_compute_subtotal_body draft) = (precio_unitario draft * 0)%float).
Proof.
  intros Hfits. split; [|split; [|split]].
  - eexists. split; [|split].
    + unfold _compute_subtotal. apply for_each_assign_run.
      intros j ->%list_elem_of_singleton. rewrite lookup_insert_eq. by eexists.
    + cbn. by rewrite lookup_alter_eq, lookup_insert_eq.
    + by apply float_mul_int_fits.
  - intros Hp Hq. unfold _onchange_subtotal. by rewrite Hp, Hq.
  - unfold _onchange_subtotal. intros [->| ->]; [done|].
    by destruct (float_truthy _).
  - intros Hq. unfold _onchange_subtotal, _compute_subtotal_body. rewrite Hq.
    cbn [int_truthy Z.eqb negb]. rewrite andb_false_r. done.
Qed.

Lemma onchange_subtotal_guard_witness :
  (∃ st', _compute_subtotal [1] (<[1 := set_cantidad 0 widget]> shop) = Ok (tt, st') ∧
          st' !! 1 = Some (_compute_subtotal_body (set_cantidad 0 widget)) ∧
          float_mul_int (precio_unitario (set_cantidad 0 widget))
                        (cantidad (set_cantidad 0 widget)) =
            Ok (subtotal (_compute_subtotal_body (set_cantidad 0 widget)))) ∧
  (float_truthy (precio_unitario (set_cantidad 0 widget)) = true ->
   int_truthy (cantidad (set_cantidad 0 widget)) = true ->
   _onchange_subtotal (set_cantidad 0 widget) =
     _compute_subtotal_body (set_cantidad 0 widget)) ∧
  (float_truthy (precio_unitario (set_cantidad 0 widget)) = false ∨
   int_truthy (cantidad (set_cantidad 0 widget)) = false ->
   _onchange_subtotal (set_cantidad 0 widget) = set_cantidad 0 widget) ∧
  (cantidad (set_cantidad 0 widget) = 0 ->
   subtotal (_onchange_subtotal (set_cantidad 0 widget)) =
     subtotal (set_cantidad 0 widget) ∧
   subtotal (_compute_subtotal_body (set_cantidad 0 widget)) =
     (precio_unitario (set_cantidad 0 widget) * 0)%float).
Proof. exact (onchange_subtotal_guard (set_cantidad 0 widget) 1 shop eq_refl). Defined.

(** C4, the divergence on a concrete draft: with the quantity of the sample
    row edited to zero, [_onchange_subtotal] leaves the old subtotal 10.0 on
    the draft, while [_compute_subtotal] gives 0.0 for the same values. *)
Lemma onchange_zero_quantity_counterexample :
  subtotal (_onchange_subtotal (set_cantidad 0 widget)) = 10.0%float ∧
  (∃ st', _compute_subtotal [1] (<[1 := set_cantidad 0 widget]> shop) = Ok (tt, st') ∧
          subtotal <$> st' !! 1 = Some 0%float) ∧
  (10.0 =? 0)%float = false.
Proof.
  split; [reflexivity|]. split; [|reflexivity].
  eexists. split; reflexivity.
Qed.

(** ** Duplicating records *)

Lemma precio_stored : "precio_unitario" ∈ stored_fields.
Proof. unfold stored_fields. do 2 right. by left. Qed.

Lemma check_keys_duplicar_vals (record : Producto) (st : store) :
  check_keys (duplicar_vals record) st = Ok (tt, st).
Proof.
  unfold check_keys. case_decide as Hsub; [done|].
  exfalso. apply Hsub. unfold duplicar_vals.
  rewrite !dom_insert_L, dom_empty_L. unfold all_fields, stored_fields.
  intros k Hk. rewrite elem_of_list_to_set.
  rewrite !elem_of_union, !elem_of_singleton in Hk.
  destruct Hk as [->|[->|[->|[->|[->|[->|[->|[->|Hk]]]]]]]];
    [by apply (bool_decide_unpack _); vm_compute..|].
  by apply elem_of_empty in Hk.
Qed.

Lemma with_defaults_duplicar_vals (record : Producto) :
  with_defaults (duplicar_vals record) !! "nombre" =
    Some (VStr (nombre record +:+ " (Copia)")) ∧
  convert_all stored_fields (with_defaults (duplicar_vals record)) blank =
    Ok (set_total 0 (set_subtotal 0 (set_nombre (nombre record +:+ " (Copia)") record))).
Proof.
  destruct record as [n d p q s i t a c ti].
  destruct d, c, ti as [[]|]; split; vm_compute; reflexivity.
Qed.

Lemma name_taken_fresh (id : Z) (r : Producto) (st : store) :
  name_free (nombre r) st -> name_taken id (nombre r) (<[id := r]> st) = false.
Proof.
  intros Hfree. unfold name_taken. apply bool_decide_eq_false_2.
  intros (i & r' & Hlk & Hne & Heq).
  rewrite lookup_insert_ne in Hlk by done. by eapply Hfree.
Qed.

Lemma recompute_precio_run (changed : list string) (self : list Z) (st : store) :
  "precio_unitario" ∈ changed ->
  (∀ id, id ∈ self -> is_Some (st !! id)) ->
  recompute changed self st =
    Ok (tt, assigned _compute_total_body self (assigned _compute_subtotal_body self st)).
Proof.
  intros Hin Hall. unfold recompute. rewrite (recompute_plan_precio _ Hin).
  unfold computed_fields. cbn [for_each method].
  unfold bind, _compute_subtotal, _compute_total.
  rewrite (for_each_assign_run _ self st Hall).
  rewrite for_each_assign_run by (intros; by apply assigned_is_Some, Hall).
  reflexivity.
Qed.

Lemma insert_row_duplicar_vals (record : Producto) (st : store) :
  name_free (nombre record +:+ " (Copia)") st ->
  insert_row (duplicar_vals record) st =
    Ok ([fresh (dom st)], <[fresh (dom st) := copia record]> st).
Proof.
  intros Hfree.
  destruct (with_defaults_duplicar_vals record) as [Hnombre Hconv].
  unfold insert_row, bind.
  rewrite check_keys_duplicar_vals, Hnombre, Hconv.
  unfold check_unique, bind, browse.
  rewrite lookup_insert_eq, name_taken_fresh by done.
  rewrite recompute_precio_run; cycle 1.
  { apply precio_stored. }
  { intros j ->%list_elem_of_singleton. rewrite lookup_insert_eq. by eexists. }
  cbn [assigned foldl]. by rewrite !alter_insert_eq.
Qed.

(** [create] on the dictionary of [duplicar_producto]: the copy gets a new
    id and the table gains exactly that row. *)
Lemma create_duplicar_vals (record : Producto) (st : store) :
  valores_ok record ->
  name_free (nombre record +:+ " (Copia)") st ->
  create (duplicar_vals record) st =
    Ok ([fresh (dom st)], <[fresh (dom st) := copia record]> st).
Proof.
  intros [Hp Hq] Hfree. unfold create, base_create, bind.
  rewrite insert_row_duplicar_vals by done.
  rewrite validate_fields_run.
  replace (existsb (mentions stored_fields) _check_valores_constrains) with true
    by reflexivity.
  erewrite check_valores_cons by apply lookup_insert_eq.
  change (precio_unitario (copia record)) with (precio_unitario record).
  change (cantidad (copia record)) with (cantidad record).
  rewrite Hp. destruct (cantidad record <? 0) eqn:Hq'; [lia|].
  reflexivity.
Qed.

Lemma fresh_id_free (st : store) : st !! fresh (dom st) = None.
Proof. apply not_elem_of_dom, is_fresh. Qed.

(** One turn of the loop of [duplicar_producto]. *)
Lemma duplicar_step (id : Z) (record : Producto) (st : store) :
  st !! id = Some record ->
  valores_ok record ->
  name_free (nombre record +:+ " (Copia)") st ->
  (let* r := browse id in create (duplicar_vals r) >> ret tt) st =
    Ok (tt, <[fresh (dom st) := copia record]> st).
Proof.
  intros Hr Hok Hfree. unfold bind, browse. rewrite Hr.
  by rewrite create_duplicar_vals.
Qed.

Lemma length_append (s1 s2 : string) :
  String.length (s1 +:+ s2) = (String.length s1 + String.length s2)%nat.
Proof. induction s1 as [|c s1 IH]; [done|]. cbn. by rewrite <- IH. Qed.

(** Appending the same suffix to different names gives different names. *)
Lemma append_inj_r (t s1 s2 : string) : s1 +:+ t = s2 +:+ t -> s1 = s2.
Proof.
  revert s2. induction s1 as [|c s1 IH]; intros [|c' s2] Heq; [done| | |].
  - apply (f_equal String.length) in Heq.
    rewrite !length_append in Heq. cbn in Heq. lia.
  - apply (f_equal String.length) in Heq.
    rewrite !length_append in Heq. cbn in Heq. lia.
  - change (String c (s1 +:+ t) = String c' (s2 +:+ t)) in Heq.
    injection Heq as -> Heq. f_equal. by apply IH.
Qed.

Lemma duplicable_cons (a : Z) (self : list Z) (st : store) (ra : Producto) :
  duplicable (a :: self) st ->
  st !! a = Some ra ->
  duplicable self (<[fresh (dom st) := copia ra]> st).
Proof.
  intros (Hall & Hnodup & Huniq & Hfree) Ha.
  pose proof (fresh_id_free st) as Hnew.
  apply NoDup_cons in Hnodup as [Hnotin Hnodup].
  assert (name_free (nombre ra +:+ " (Copia)") st) as Hfa by (eapply Hfree; [by left | done]).
  split; [|split; [done|split]].
  - intros id Hid. destruct (Hall id) as (r & Hr & Hok); [by right|].
    exists r. split; [|done]. rewrite lookup_insert_ne; [done|]. congruence.
  - intros i r Hi j r' Hj Hname.
    rewrite lookup_insert in Hi. rewrite lookup_insert in Hj.
    destruct (decide (fresh (dom st) = i)) as [<-|], (decide (fresh (dom st) = j)) as [<-|];
      [done| | |by eapply Huniq].
    + injection Hi as <-. exfalso. by eapply Hfa.
    + injection Hj as <-. exfalso. by eapply Hfa.
  - intros id r Hid Hr i r' Hi.
    assert (st !! id = Some r) as Hr'.
    { destruct (Hall id) as (r0 & Hr0 & _); [by right|].
      rewrite lookup_insert_ne in Hr; [done|]. intros <-. congruence. }
    rewrite lookup_insert in Hi. destruct (decide (fresh (dom st) = i)) as [<-|].
    + injection Hi as <-. cbn. intros Heq%append_inj_r.
      apply Hnotin. by rewrite (Huniq a ra Ha id r Hr' Heq).
    + eapply Hfree; [by right | done | done].
Qed.

Lemma duplicar_loop (self : list Z) (st : store) :
  duplicable self st ->
  ∃ st', for_each (fun id => let* record := browse id in
                             create (duplicar_vals record) >> ret tt) self st
           = Ok (tt, st') ∧
    st ⊆ st' ∧ size st' = (size st + length self)%nat ∧
    ∀ id r, id ∈ self -> st !! id = Some r ->
      ∃ new, st !! new = None ∧ st' !! new = Some (copia r).
Proof.
  revert st. induction self as [|a self IH]; intros st Hdup.
  { exists st. split; [done|]. split; [done|]. split; [cbn; lia|].
    intros id r Hid. by apply elem_of_nil in Hid. }
  pose proof Hdup as (Hall & _ & _ & Hfree).
  destruct (Hall a) as (ra & Ha & Hok); [by left|].
  pose proof (fresh_id_free st) as Hnew.
  destruct (IH _ (duplicable_cons _ _ _ _ Hdup Ha)) as (st' & Hrun & Hsub & Hsize & Hcopies).
  assert (st ⊆ st') as Hsub'.
  { etrans; [|exact Hsub]. by apply insert_subseteq. }
  exists st'. split; [|split; [done|split]].
  - cbn [for_each]. unfold bind at 1.
    rewrite (duplicar_step a ra st Ha Hok); [done|]. eapply Hfree; [by left | done].
  - rewrite Hsize, map_size_insert_None by done. cbn. lia.
  - intros id r Hid Hr. apply elem_of_cons in Hid as [->|Hid].
    + rewrite Ha in Hr. injection Hr as <-. exists (fresh (dom st)). split; [done|].
      eapply lookup_weaken; [apply lookup_insert_eq | done].
    + destruct (Hcopies id r Hid) as (new & Hnone & Hsome).
      { rewrite lookup_insert_ne; [done|]. intros <-. congruence. }
      exists new. split; [|done].
      destruct (st !! new) as [x|] eqn:Hx; [|done].
      apply (lookup_weaken _ (<[fresh (dom st) := copia ra]> st)) in Hx;
        [congruence | by apply insert_subseteq].
Qed.

(** Facts about the sample table. *)
Lemma widget_ok : valores_ok widget.
Proof. split; [reflexivity | by vm_compute]. Defined.

Lemma gadget_ok : valores_ok gadget.
Proof. split; [reflexivity | by vm_compute]. Defined.

Lemma shop_widget_copy_free : name_free (nombre widget +:+ " (Copia)") shop.
Proof.
  apply (bool_decide_unpack (map_Forall (fun _ r => nombre r ≠ "Widget (Copia)") shop)).
  by vm_compute.
Defined.

Lemma shop_gadget_copy_free : name_free (nombre gadget +:+ " (Copia)") shop.
Proof.
  apply (bool_decide_unpack (map_Forall (fun _ r => nombre r ≠ "Gadget (Copia)") shop)).
  by vm_compute.
Defined.

Lemma shop_unique_names : unique_names shop.
Proof.
  apply (bool_decide_unpack
           (map_Forall (fun i r =>
              map_Forall (fun j r' => nombre r = nombre r' -> i = j) shop) shop)).
  by vm_compute.
Defined.

Lemma shop_duplicable : duplicable [1; 2] shop.
Proof.
  split; [|split; [|split]].
  - intros id Hid. apply elem_of_cons in Hid as [->|Hid].
    { exists widget. split; [reflexivity | exact widget_ok]. }
    apply elem_of_cons in Hid as [->|Hid].
    { exists gadget. split; [reflexivity | exact gadget_ok]. }
    by apply elem_of_nil in Hid.
  - apply (bool_decide_unpack (NoDup [1; 2])). by vm_compute.
  - exact shop_unique_names.
  - intros id r Hid Hr. apply elem_of_cons in Hid as [->|Hid].
    { injection Hr as <-. exact shop_widget_copy_free. }
    apply elem_of_cons in Hid as [->|Hid].
    { injection Hr as <-. exact shop_gadget_copy_free. }
    by apply elem_of_nil in Hid.
Defined.

(** C5 (as the code has it): duplicating an existing record that passes
    [_check_valores], when no row has its name followed by " (Copia)" yet,
    adds one row under a new id.  The name of the new row is the original
    name followed by " (Copia)"; its description, price, quantity, tax,
    active flag, category and kind are the original's; its subtotal and
    total are the ones computed from its own price, quantity and tax. *)
Theorem duplicar_producto_copies (id : Z) (record : Producto) (st : store) :
  st !! id = Some record ->
  valores_ok record ->
  name_free (nombre record +:+ " (Copia)") st ->
  ∃ new copy,
    duplicar_producto [id] st = Ok (VNone, <[new := copy]> st) ∧
    st !! new = None ∧
    nombre copy = nombre record +:+ " (Copia)" ∧
    descripcion copy = descripcion record ∧
    precio_unitario copy = precio_unitario record ∧
    cantidad copy = cantidad record ∧
    iva copy = iva record ∧
    activo copy = activo record ∧
    categoria_id copy = categoria_id record ∧
    tipo copy = tipo record ∧
    subtotal copy = (precio_unitario copy * float_of_int (cantidad copy))%float ∧
    total copy = (subtotal copy * (1 + iva copy / 100))%float.
Proof.
  intros Hr Hok Hfree. exists (fresh (dom st)), (copia record).
  split; [|split; [apply fresh_id_free | by repeat split]].
  unfold duplicar_producto. cbn [for_each]. unfold bind at 1. unfold bind at 1.
  by rewrite (duplicar_step id record st Hr Hok Hfree).
Qed.

Lemma duplicar_producto_copies_witness :
  ∃ new copy,
    duplicar_producto [1] shop = Ok (VNone, <[new := copy]> shop) ∧
    shop !! new = None ∧
    nombre copy = nombre widget +:+ " (Copia)" ∧
    descripcion copy = descripcion widget ∧
    precio_unitario copy = precio_unitario widget ∧
    cantidad copy = cantidad widget ∧
    iva copy = iva widget ∧
    activo copy = activo widget ∧
    categoria_id copy = categoria_id widget ∧
    tipo copy = tipo widget ∧
    subtotal copy = (precio_unitario copy * float_of_int (cantidad copy))%float ∧
    total copy = (subtotal copy * (1 + iva copy / 100))%float.
Proof.
  exact (duplicar_producto_copies 1 widget shop eq_refl widget_ok shop_widget_copy_free).
Defined.

(** C5, the claim as stated fails: the copy of "Widget" is named
    "Widget (Copia)"; no row named "Widget (Copy)" appears. *)
Lemma duplicar_suffix_counterexample :
  duplicar_producto [1] shop = Ok (VNone, <[3 := copia widget]> shop) ∧
  nombre (copia widget) = "Widget (Copia)" ∧
  nombre (copia widget) ≠ nombre widget +:+ " (Copy)" ∧
  name_free (nombre widget +:+ " (Copy)") (<[3 := copia widget]> shop).
Proof.
  split; [by vm_compute|]. split; [reflexivity|]. split; [by vm_compute|].
  apply (bool_decide_unpack
           (map_Forall (fun _ r => nombre r ≠ "Widget (Copy)") (<[3 := copia widget]> shop))).
  by vm_compute.
Qed.

(** A second duplication of the same record is refused by the uniqueness of
    the name, and nothing is written. *)
Example duplicar_twice :
  commit (duplicar_producto [1]) (<[3 := copia widget]> shop) =
    (Raise (Exc IntegrityError "El nombre del producto debe ser único"),
     <[3 := copia widget]> shop).
Proof. by vm_compute. Qed.

(** C6 (as the code has it): the dictionary handed to [create] has exactly
    the eight stored fields as keys, the quantity among them with the
    original's value; [subtotal] and [total] are not keys, and the new row
    gets them from the recomputation on its own price, quantity and tax,
    whatever the original's derived fields held. *)
Theorem duplicar_vals_keys (id : Z) (record : Producto) (st : store) :
  st !! id = Some record ->
  valores_ok record ->
  name_free (nombre record +:+ " (Copia)") st ->
  dom (duplicar_vals record) = list_to_set stored_fields ∧
  duplicar_vals record !! "cantidad" = Some (VInt (cantidad record)) ∧
  duplicar_vals record !! "subtotal" = None ∧
  duplicar_vals record !! "total" = None ∧
  ∃ new copy,
    duplicar_producto [id] st = Ok (VNone, <[new := copy]> st) ∧
    cantidad copy = cantidad record ∧
    subtotal copy = (precio_unitario record * float_of_int (cantidad record))%float ∧
    total copy =
      (precio_unitario record * float_of_int (cantidad record) * (1 + iva record / 100))%float.
Proof.
  intros Hr Hok Hfree.
  split; [by vm_compute|]. split; [by vm_compute|].
  split; [by vm_compute|]. split; [by vm_compute|].
  exists (fresh (dom st)), (copia record). split; [|by repeat split].
  unfold duplicar_producto. cbn [for_each]. unfold bind at 1. unfold bind at 1.
  by rewrite (duplicar_step id record st Hr Hok Hfree).
Qed.

Lemma duplicar_vals_keys_witness :
  dom (duplicar_vals gadget) = list_to_set stored_fields ∧
  duplicar_vals gadget !! "cantidad" = Some (VInt (cantidad gadget)) ∧
  duplicar_vals gadget !! "subtotal" = None ∧
  duplicar_vals gadget !! "total" = None ∧
  ∃ new copy,
    duplicar_producto [2] shop = Ok (VNone, <[new := copy]> shop) ∧
    cantidad copy = cantidad gadget ∧
    subtotal copy = (precio_unitario gadget * float_of_int (cantidad gadget))%float ∧
    total copy =
      (precio_unitario gadget * float_of_int (cantidad gadget) * (1 + iva gadget / 100))%float.
Proof.
  exact (duplicar_vals_keys 2 gadget shop eq_refl gadget_ok shop_gadget_copy_free).
Defined.

(** C6, the claim as stated fails: the quantity is a key of the dictionary,
    and the copy of a record with quantity 4 has quantity 4, not the default
    quantity 1 of a creation that leaves it out. *)
Lemma duplicar_cantidad_counterexample :
  duplicar_vals gadget !! "cantidad" = Some (VInt 4) ∧
  default_get ["cantidad"] !! "cantidad" = Some (VInt 1) ∧
  duplicar_producto [2] shop = Ok (VNone, <[3 := copia gadget]> shop) ∧
  cantidad (copia gadget) = 4 ∧
  subtotal gadget = 0%float ∧ subtotal (copia gadget) = 10.0%float.
Proof. repeat split; by vm_compute. Qed.

(** C10 (as the code has it): on records that can be duplicated,
    [duplicar_producto] returns [None]; afterwards the table holds the old
    rows unchanged and, for every record of the set, its copy under an id that
    was not in use. *)
Theorem duplicar_producto_returns_none (self : list Z) (st : store) :
  duplicable self st ->
  ∃ st', duplicar_producto self st = Ok (VNone, st') ∧
    st ⊆ st' ∧ size st' = (size st + length self)%nat ∧
    ∀ id r, id ∈ self -> st !! id = Some r ->
      ∃ new, st !! new = None ∧ st' !! new = Some (copia r).
Proof.
  intros Hdup. destruct (duplicar_loop self st Hdup) as (st' & Hrun & Hrest).
  exists st'. split; [|done]. unfold duplicar_producto. unfold bind at 1. by rewrite Hrun.
Qed.

Lemma duplicar_producto_returns_none_witness :
  ∃ st', duplicar_producto [1; 2] shop = Ok (VNone, st') ∧
    shop ⊆ st' ∧ size st' = (size shop + length [1; 2])%nat ∧
    ∀ id r, id ∈ [1; 2] -> shop !! id = Some r ->
      ∃ new, shop !! new = None ∧ st' !! new = Some (copia r).
Proof. exact (duplicar_producto_returns_none [1; 2] shop shop_duplicable). Defined.

(** C10, the claim as stated fails: on a non-empty set of existing records
    the call need not return at all.  Once the sample row has been duplicated,
    duplicating it again raises, the name of the copy being taken; so does a
    set that lists the row twice. *)
Lemma duplicar_returns_counterexample :
  length [1] = 1%nat ∧
  <[3 := copia widget]> shop !! 1 = Some widget ∧
  duplicar_producto [1] shop = Ok (VNone, <[3 := copia widget]> shop) ∧
  duplicar_producto [1] (<[3 := copia widget]> shop) =
    Raise (Exc IntegrityError "El nombre del producto debe ser único") ∧
  duplicar_producto [1; 1] shop =
    Raise (Exc IntegrityError "El nombre del producto debe ser único").
Proof. repeat split; by vm_compute. Qed.

Example duplicar_shop :
  duplicar_producto [1; 2] shop =
    Ok (VNone, <[4 := copia gadget]> (<[3 := copia widget]> shop)).
Proof. by vm_compute. Qed.

(** ** Marking records inactive *)

Lemma for_each_ext {A} (f g : A -> orm unit) (l : list A) (st : store) :
  (∀ x s, f x s = g x s) -> for_each f l st = for_each g l st.
Proof.
  intros Hfg. revert st. induction l as [|x l IH]; intros st; [done|].
  cbn [for_each]. unfold bind. rewrite Hfg.
  destruct (g x st) as [[[] st1]|e]; [apply IH | done].
Qed.

Lemma convert_all_activo (r : Producto) :
  convert_all stored_fields {["activo" := VBool false]} r = Ok (set_activo false r).
Proof. destruct r. by vm_compute. Qed.

(** [record.activo = False] writes that one field of the record: nothing is
    recomputed and nothing is validated. *)
Lemma setattr_activo (record : Z) (st : store) :
  setattr record "activo" (VBool false) st = assign record (set_activo false) st.
Proof.
  unfold setattr, write, base_write, update_rows, assign.
  replace (elements (dom ({["activo" := VBool false]} : gmap string value)))
    with ["activo"] by reflexivity.
  replace (check_keys {["activo" := VBool false]}) with (ret tt : orm unit) by reflexivity.
  change (mentions ["activo"] "nombre") with false.
  change (recompute ["activo"] [record]) with (ret tt : orm unit).
  change (_validate_fields [record] ["activo"]) with (ret tt : orm unit).
  cbn [for_each]. unfold bind, ret, browse.
  destruct (st !! record) as [r|]; [|done].
  by rewrite convert_all_activo.
Qed.

Lemma set_activo_idem (r : Producto) :
  set_activo false (set_activo false r) = set_activo false r.
Proof. reflexivity. Qed.

(** C7: on records that exist, [action_marcar_inactivo] succeeds and returns
    [True]; every record of the set is then inactive with all its other
    fields as before, and no other row and no id changes. *)
Theorem action_marcar_inactivo_frame (self : list Z) (st : store) :
  (∀ id, id ∈ self -> is_Some (st !! id)) ->
  ∃ st', action_marcar_inactivo self st = Ok (VBool true, st') ∧
    (∀ id r, id ∈ self -> st !! id = Some r ->
       ∃ r', st' !! id = Some r' ∧ r' = set_activo false r ∧
         activo r' = false ∧
         nombre r' = nombre r ∧ descripcion r' = descripcion r ∧
         precio_unitario r' = precio_unitario r ∧ cantidad r' = cantidad r ∧
         subtotal r' = subtotal r ∧ iva r' = iva r ∧ total r' = total r ∧
         categoria_id r' = categoria_id r ∧ tipo r' = tipo r) ∧
    (∀ id, id ∉ self -> st' !! id = st !! id) ∧
    dom st' = dom st.
Proof.
  intros Hall. exists (assigned (set_activo false) self st).
  assert (∀ id, id ∈ self -> ∀ r, st !! id = Some r ->
            assigned (set_activo false) self st !! id = Some (set_activo false r)) as Hin.
  { intros id Hid r Hr. rewrite assigned_inside by (done || apply set_activo_idem).
    by rewrite Hr. }
  split; [|split; [|split]].
  - unfold action_marcar_inactivo. unfold bind at 1.
    rewrite (for_each_ext _ (fun id => assign id (set_activo false)))
      by apply setattr_activo.
    by rewrite for_each_assign_run.
  - intros id r Hid Hr. eexists. split; [by apply Hin|]. by repeat split.
  - intros id Hid. by apply assigned_outside.
  - apply set_eq. intros id. rewrite !elem_of_dom.
    destruct (decide (id ∈ self)) as [Hid|Hid].
    + destruct (Hall id Hid) as [r Hr]. rewrite (Hin id Hid r Hr), Hr.
      split; by eexists.
    + by rewrite assigned_outside.
Qed.


Lemma action_marcar_inactivo_frame_witness :
  ∃ st', action_marcar_inactivo [1; 2] shop = Ok (VBool true, st') ∧
    (∀ id r, id ∈ [1; 2] -> shop !! id = Some r ->
       ∃ r', st' !! id = Some r' ∧ r' = set_activo false r ∧
         activo r' = false ∧
         nombre r' = nombre r ∧ descripcion r' = descripcion r ∧
         precio_unitario r' = precio_unitario r ∧ cantidad r' = cantidad r ∧
         subtotal r' = subtotal r ∧ iva r' = iva r ∧ total r' = total r ∧
         categoria_id r' = categoria_id r ∧ tipo r' = tipo r) ∧
    (∀ id, id ∉ [1; 2] -> st' !! id = shop !! id) ∧
    dom st' = dom shop.
Proof. exact (action_marcar_inactivo_frame [1; 2] shop in_shop). Defined.

Example marcar_inactivo_widget :
  action_marcar_inactivo [1] shop = Ok (VBool true, <[1 := set_activo false widget]> shop).
Proof. by vm_compute. Qed.

(** ** Listing the active records *)

Lemma domain_holds_activo (r : Producto) :
  domain_holds [("activo", "=", VBool true)] r = activo r.
Proof. destruct r as [n d p q s i t [] c ti]; reflexivity. Qed.

#[local] Instance by_nombre_trans : Transitive by_nombre.
Proof. intros a b c Hab Hbc. unfold by_nombre in *. by etrans. Qed.

#[local] Instance by_nombre_total : Total by_nombre.
Proof. intros a b. unfold by_nombre. apply (base.total String.le). Qed.

Lemma elem_of_filter_bool {A} (f : A -> bool) (l : list A) (x : A) :
  x ∈ List.filter f l <-> x ∈ l ∧ f x = true.
Proof. rewrite !list_elem_of_In. apply filter_In. Qed.

Lemma NoDup_fst_filter {A} (f : Z * A -> bool) (l : list (Z * A)) :
  NoDup l.*1 -> NoDup (List.filter f l).*1.
Proof.
  induction l as [|x l IH]; [done|]. cbn. intros [Hx Hl]%NoDup_cons.
  destruct (f x); [|by apply IH]. cbn. apply NoDup_cons. split; [|by apply IH].
  intros (y & Hy1 & Hy2)%list_elem_of_fmap. apply Hx.
  apply list_elem_of_fmap. exists y. split; [done|].
  by apply elem_of_filter_bool in Hy2 as [Hy2 _].
Qed.

(** C8: [productos_activos] returns, without touching the table, the ids of
    exactly the rows whose [activo] is true, each once, in the order of
    their names. *)
Theorem productos_activos_exact (st : store) :
  ∃ rows : list (Z * Producto),
    productos_activos st = Ok (VRecordset rows.*1, st) ∧
    NoDup rows.*1 ∧
    (∀ id r, (id, r) ∈ rows <-> st !! id = Some r ∧ activo r = true) ∧
    (∀ id, id ∈ rows.*1 <-> ∃ r, st !! id = Some r ∧ activo r = true) ∧
    (∀ id r, st !! id = Some r -> activo r = false -> id ∉ rows.*1) ∧
    StronglySorted by_nombre rows.
Proof.
  set (found := List.filter (fun ir : Z * Producto =>
                               domain_holds [("activo", "=", VBool true)] ir.2)
                            (map_to_list st)).
  exists (merge_sort (order_le _order) found).
  assert (∀ id r, (id, r) ∈ merge_sort (order_le _order) found <->
                  st !! id = Some r ∧ activo r = true) as Hrows.
  { intros id r. rewrite merge_sort_Permutation. unfold found.
    rewrite elem_of_filter_bool, elem_of_map_to_list. cbn [snd].
    by rewrite domain_holds_activo. }
  assert (∀ id, id ∈ (merge_sort (order_le _order) found).*1 <->
                ∃ r, st !! id = Some r ∧ activo r = true) as Hids.
  { intros id. rewrite list_elem_of_fmap. split.
    - intros ([id' r] & -> & Hin). exists r. by apply Hrows.
    - intros (r & Hr). exists (id, r). split; [done|]. by apply Hrows. }
  split; [done|]. split; [|split; [done|split; [done|split]]].
  - rewrite merge_sort_Permutation. unfold found.
    apply NoDup_fst_filter, NoDup_fst_map_to_list.
  - intros id r Hr Hoff (r' & Hr' & Hon)%Hids. congruence.
  - apply (StronglySorted_merge_sort by_nombre).
Qed.

Example productos_activos_shop :
  (action_marcar_inactivo [2] >> duplicar_producto [1] >> productos_activos) shop =
    Ok (VRecordset [1; 3],
        <[3 := copia widget]> (<[2 := set_activo false gadget]> shop)).
Proof. by vm_compute. Qed.

(** ** Opening the wizard *)

(** C9 (as the code has it): [action_abrir_wizard] returns, for any records
    and without touching the table, the window action of the host with the
    four entries type "ir.actions.act_window", res_model "mi.modulo.wizard",
    view_mode "form" and target "new" (a dialog over the current view). *)
Theorem action_abrir_wizard_descriptor (self : list Z) (st : store) :
  ∃ d, action_abrir_wizard self st = Ok (VAction d, st) ∧
    d !! "type" = Some "ir.actions.act_window" ∧
    d !! "res_model" = Some "mi.modulo.wizard" ∧
    d !! "view_mode" = Some "form" ∧
    d !! "target" = Some "new" ∧
    size d = 4%nat.
Proof. eexists. split; [reflexivity|]. repeat split; by vm_compute. Qed.

(** C9, the claim as stated fails: the descriptor returned is not the one of
    the specification; its type is "ir.actions.act_window", and none of its
    entries is "wizard" or "modal". *)
Lemma action_abrir_wizard_counterexample :
  ∃ d, action_abrir_wizard [1] shop = Ok (VAction d, shop) ∧
    d ≠ spec_wizard_descriptor ∧
    d !! "type" = Some "ir.actions.act_window" ∧
    d !! "target_type" = None ∧
    d !! "display" = None ∧
    map_Forall (fun _ v => v ≠ "wizard" ∧ v ≠ "modal") d.
Proof.
  eexists. split; [reflexivity|].
  split; [by intros H%(f_equal (fun m => m !! "type"))|].
  split; [by vm_compute|]. split; [by vm_compute|]. split; [by vm_compute|].
  apply (bool_decide_unpack _). by vm_compute.
Qed.

(** * Further properties of the model *)

(** ** Validation reads, and reports the first offender *)

Lemma check_valores_nil (st : store) : _check_valores [] st = Ok (tt, st).
Proof. reflexivity. Qed.

Lemma check_valores_missing (a : Z) (self : list Z) (st : store) :
  st !! a = None ->
  _check_valores (a :: self) st =
    Raise (Exc MissingError "Record does not exist or has been deleted.").
Proof.
  intros Ha. unfold _check_valores. cbn [for_each]. unfold bind, browse.
  by rewrite Ha.
Qed.

(** X1: [_check_valores] passes exactly on the sets all of whose ids are rows
    on which neither test fires, and a pass leaves the table untouched. *)
Theorem check_valores_pass_iff (self : list Z) (st : store) :
  ((∃ u st', _check_valores self st = Ok (u, st')) <->
     ∀ id, id ∈ self -> ∃ r, st !! id = Some r ∧ valores_ok r) ∧
  (∀ u st', _check_valores self st = Ok (u, st') -> st' = st).
Proof.
  induction self as [|a self [IHiff IHst]].
  { split; [|by intros u st' [= _ <-]]. split.
    - intros _ id Hid. by apply elem_of_nil in Hid.
    - intros _. by exists tt, st. }
  destruct (st !! a) as [ra|] eqn:Ha.
  - rewrite (check_valores_cons _ _ _ _ Ha).
    destruct (precio_unitario ra <? 0)%float eqn:Hp.
    { split; [|by intros u st' [=]]. split; [by intros (u & st' & [=])|].
      intros Hall. destruct (Hall a) as (r & Hr & Hp' & _); [by left|].
      rewrite Ha in Hr. injection Hr as <-. congruence. }
    destruct (cantidad ra <? 0) eqn:Hq.
    { split; [|by intros u st' [=]]. split; [by intros (u & st' & [=])|].
      intros Hall. destruct (Hall a) as (r & Hr & _ & Hq'); [by left|].
      rewrite Ha in Hr. injection Hr as <-. lia. }
    split; [|done]. rewrite IHiff. split.
    + intros Hall id [->|Hid]%elem_of_cons; [|by apply Hall].
      exists ra. repeat split; [done..|lia].
    + intros Hall id Hid. apply Hall. by right.
  - rewrite (check_valores_missing _ _ _ Ha).
    split; [|by intros u st' [=]]. split; [by intros (u & st' & [=])|].
    intros Hall. destruct (Hall a) as (r & Hr & _); [by left|]. congruence.
Qed.

(** X2: the exception of [_check_valores] is that of the first record of
    the set, in its order, on which a test fires, the price being tested
    before the quantity; the records after it are not looked at. *)
Theorem check_valores_first_offender
    (before after : list Z) (a : Z) (ra : Producto) (e : exception) (st : store) :
  (∀ id, id ∈ before -> ∃ r, st !! id = Some r ∧ valores_ok r) ->
  st !! a = Some ra ->
  offending ra e ->
  _check_valores (before ++ a :: after) st = Raise e.
Proof.
  intros Hbefore Ha Hoff. induction before as [|b before IH]; cbn [app].
  - rewrite (check_valores_cons _ _ _ _ Ha).
    destruct Hoff as [[-> ->]|(-> & Hq & ->)]; [done|].
    by destruct (Z.ltb_spec (cantidad ra) 0); [|lia].
  - destruct (Hbefore b) as (rb & Hb & Hp & Hq); [by left|].
    rewrite (check_valores_cons _ _ _ _ Hb), Hp.
    destruct (Z.ltb_spec (cantidad rb) 0); [lia|].
    apply IH. intros id Hid. apply Hbefore. by right.
Qed.

(** ** Defaults *)

Lemma base_default_get_lookup (fields_list : list string) (k : string) :
  base_default_get fields_list !! k =
    if bool_decide (k ∈ fields_list) then field_default k else None.
Proof.
  induction fields_list as [|name rest IH]; [done|].
  cbn [base_default_get].
  destruct (decide (k = name)) as [->|Hne].
  - rewrite bool_decide_eq_true_2 by (by left).
    destruct (field_default name) as [v|] eqn:Hv; [by rewrite lookup_insert_eq|].
    rewrite IH. by case_bool_decide.
  - assert (bool_decide (k ∈ name :: rest) = bool_decide (k ∈ rest)) as ->.
    { apply bool_decide_ext. rewrite elem_of_cons.
      split; [by intros [?|?] | by right]. }
    destruct (field_default name); [by rewrite lookup_insert_ne|done].
Qed.

(** X3: whatever fields are asked for, [default_get] answers quantity 1;
    every other key it answers is a field that was asked for, with the
    default declared for it, and a field without a declared default is never
    answered. *)
Theorem default_get_lookup (fields_list : list string) (k : string) :
  default_get fields_list !! "cantidad" = Some (VInt 1) ∧
  (k ≠ "cantidad" ->
   default_get fields_list !! k =
     if bool_decide (k ∈ fields_list) then field_default k else None) ∧
  default_get fields_list !! "nombre" = None.
Proof.
  unfold default_get. split; [apply lookup_insert_eq|]. split.
  - intros Hk. rewrite lookup_insert_ne by done. apply base_default_get_lookup.
  - rewrite lookup_insert_ne by done. rewrite base_default_get_lookup.
    by case_bool_decide.
Qed.

(** ** The selection of [tipo] *)

(** X4: the keys that [_get_tipos] offers are exactly the strings that the
    column [tipo] takes; a key that is written is the key that is read back,
    and any other string is refused. *)
Theorem tipo_round_trip (k : string) (r : Producto) :
  (k ∈ _get_tipos.*1 ->
   ∃ r', convert_to_column "tipo" (VStr k) r = Ok r' ∧
         getattr "tipo" r' = Some (VStr k)) ∧
  (k ∉ _get_tipos.*1 ->
   convert_to_column "tipo" (VStr k) r =
     Raise (Exc ValueError "Wrong value for mi.producto.tipo")).
Proof.
  split.
  - intros Hk. cbn in Hk.
    apply elem_of_cons in Hk as [->|Hk]; [by eexists|].
    apply elem_of_cons in Hk as [->|Hk]; [by eexists|].
    by apply elem_of_nil in Hk.
  - intros Hk. change (convert_to_column "tipo" (VStr k) r)
      with (match tipo_of_key k with
            | Some t => Ok (set_tipo (Some t) r)
            | None => @wrong_value Producto "tipo"
            end).
    unfold tipo_of_key.
    destruct (String.eqb_spec k "fisico") as [->|_].
    { exfalso. apply Hk. cbn. by left. }
    destruct (String.eqb_spec k "digital") as [->|_]; [|done].
    exfalso. apply Hk. cbn. right. by left.
Qed.

(** ** The onchange *)

(** X5: [_onchange_subtotal] touches no field of the draft but the
    subtotal, and running it again on its result changes nothing. *)
Theorem onchange_frame (draft : Producto) :
  _onchange_subtotal draft = set_subtotal (subtotal (_onchange_subtotal draft)) draft ∧
  _onchange_subtotal (_onchange_subtotal draft) = _onchange_subtotal draft.
Proof.
  unfold _onchange_subtotal.
  destruct (float_truthy (precio_unitario draft) && int_truthy (cantidad draft)) eqn:Hg.
  - cbn. rewrite Hg. done.
  - rewrite Hg. by destruct draft.
Qed.

(** ** Recomputation *)

Lemma for_each_assign_inv (f : Producto -> Producto) (self : list Z) (st st' : store) (u : unit) :
  for_each (fun id => assign id f) self st = Ok (u, st') ->
  ∀ id, id ∈ self -> is_Some (st !! id).
Proof.
  revert st. induction self as [|a self IH]; intros st Hrun id Hid.
  { by apply elem_of_nil in Hid. }
  cbn [for_each] in Hrun. unfold bind at 1 in Hrun.
  destruct (st !! a) as [ra|] eqn:Ha.
  - rewrite (assign_run f a st ra Ha) in Hrun.
    apply elem_of_cons in Hid as [->|Hid]; [by eexists|].
    specialize (IH _ Hrun id Hid). rewrite lookup_alter in IH.
    destruct (decide (a = id)) as [<-|]; [by eexists | done].
  - unfold assign, bind, browse in Hrun. by rewrite Ha in Hrun.
Qed.

Lemma assigned_lookup (f : Producto -> Producto) (self : list Z) (st : store) (id : Z) :
  (∀ r, f (f r) = f r) ->
  assigned f self st !! id = if decide (id ∈ self) then f <$> st !! id else st !! id.
Proof.
  intros Hf. destruct (decide (id ∈ self)).
  - by apply assigned_inside.
  - by apply assigned_outside.
Qed.

Lemma assigned_idem (f : Producto -> Producto) (self : list Z) (st : store) :
  (∀ r, f (f r) = f r) ->
  assigned f self (assigned f self st) = assigned f self st.
Proof.
  intros Hf. apply map_eq. intros id. rewrite !assigned_lookup by done.
  destruct (decide (id ∈ self)); [|done].
  destruct (st !! id); cbn; [by rewrite Hf | done].
Qed.

(** The part of the dependency table that a set of written fields reaches. *)
Lemma recompute_plan_cases (changed : list string) :
  recompute_plan changed =
    if existsb (mentions changed) ["precio_unitario"; "cantidad"]
    then computed_fields
    else if existsb (mentions changed) ["subtotal"; "iva"]
         then drop 1 computed_fields
         else [].
Proof.
  unfold recompute_plan. rewrite schedule_computed_fields.
  unfold computed_fields. cbn [triggered depends field drop].
  destruct (existsb (mentions changed) ["precio_unitario"; "cantidad"]).
  - cbn [existsb]. by rewrite (mentions_true ("subtotal" :: changed) "subtotal") by (by left).
  - by destruct (existsb (mentions changed) ["subtotal"; "iva"]).
Qed.

Lemma twice_body_fixed (r : Producto) :
  _compute_subtotal_body (_compute_total_body (_compute_subtotal_body r)) =
  _compute_total_body (_compute_subtotal_body r).
Proof. by destruct r. Qed.

(** A loop of assignments that has run runs again to the same table, when
    the assignment does not change what it has assigned. *)
Lemma for_each_assign_again (f : Producto -> Producto) (self : list Z) (st st' : store) (u : unit) :
  (∀ r, f (f r) = f r) ->
  for_each (fun id => assign id f) self st = Ok (u, st') ->
  for_each (fun id => assign id f) self st' = Ok (tt, st').
Proof.
  intros Hf Hrun. pose proof (for_each_assign_inv _ _ _ _ _ Hrun) as Hall.
  rewrite for_each_assign_run in Hrun by done. injection Hrun as Hst. subst st'.
  rewrite for_each_assign_run by (intros; by apply assigned_is_Some, Hall).
  by rewrite assigned_idem.
Qed.

(** X6: a recomputation pass that is run a second time, whatever fields it
    is run for, ends as the first did: with the same table, or with the same
    exception. *)
Theorem recompute_idempotent (changed : list string) (self : list Z) (st : store) :
  (recompute changed self >> recompute changed self) st = recompute changed self st.
Proof.
  unfold recompute. rewrite recompute_plan_cases.
  destruct (existsb (mentions changed) ["precio_unitario"; "cantidad"]);
    [|destruct (existsb (mentions changed) ["subtotal"; "iva"])];
    unfold computed_fields; cbn [drop for_each method]; [| |done].
  - unfold bind, ret, _compute_subtotal, _compute_total.
    destruct (for_each (fun id => assign id _compute_subtotal_body) self st)
      as [[[] st1]|e] eqn:H1; [|done].
    destruct (for_each (fun id => assign id _compute_total_body) self st1)
      as [[[] st2]|e] eqn:H2; [|done].
    pose proof (for_each_assign_inv _ _ _ _ _ H1) as Hall.
    rewrite for_each_assign_run in H1 by done. injection H1 as Hst1. subst st1.
    rewrite for_each_assign_run in H2 by (intros; by apply assigned_is_Some, Hall).
    injection H2 as Hst2. subst st2.
    assert (∀ id, id ∈ self ->
              is_Some (assigned _compute_total_body self
                         (assigned _compute_subtotal_body self st) !! id)) as Hall2.
    { intros. by apply assigned_is_Some, assigned_is_Some, Hall. }
    rewrite for_each_assign_run by done.
    assert (assigned _compute_subtotal_body self
              (assigned _compute_total_body self
                 (assigned _compute_subtotal_body self st)) =
            assigned _compute_total_body self
              (assigned _compute_subtotal_body self st)) as ->.
    { apply map_eq. intros id.
      rewrite !assigned_lookup by (apply _compute_subtotal_body_idem || apply _compute_total_body_idem).
      destruct (decide (id ∈ self)); [|done].
      destruct (st !! id); cbn; [by rewrite twice_body_fixed | done]. }
    rewrite for_each_assign_run by done.
    by rewrite assigned_idem by apply _compute_total_body_idem.
  - unfold bind, ret, _compute_total.
    destruct (for_each (fun id => assign id _compute_total_body) self st)
      as [[[] st1]|e] eqn:H1; [|done].
    by rewrite (for_each_assign_again _ _ _ _ _ _compute_total_body_idem H1).
Qed.

(** ** Writing the tax *)

Lemma convert_all_iva (t : float) (r : Producto) :
  convert_all stored_fields {["iva" := VFloat t]} r = Ok (set_iva t r).
Proof. destruct r. by vm_compute. Qed.

(** X7: writing the tax of existing records always succeeds: it is not a
    trigger of [_check_valores], so even a record that the validation would
    refuse is written; the total is recomputed from the subtotal as it
    stands, and the subtotal itself is not recomputed. *)
Theorem write_iva (self : list Z) (t : float) (st : store) :
  (∀ id, id ∈ self -> is_Some (st !! id)) ->
  ∃ st', write self {["iva" := VFloat t]} st = Ok (true, st') ∧
    (∀ id r, id ∈ self -> st !! id = Some r ->
       st' !! id = Some (set_total (subtotal r * (1 + t / 100))%float (set_iva t r))) ∧
    (∀ id, id ∉ self -> st' !! id = st !! id).
Proof.
  intros Hall.
  assert (∀ r, set_iva t (set_iva t r) = set_iva t r) as Hidem by done.
  exists (assigned _compute_total_body self (assigned (set_iva t) self st)).
  split; [|split].
  - unfold write, base_write, update_rows.
    replace (elements (dom ({["iva" := VFloat t]} : gmap string value)))
      with ["iva"] by reflexivity.
    replace (check_keys {["iva" := VFloat t]}) with (ret tt : orm unit) by reflexivity.
    change (mentions ["iva"] "nombre") with false.
    change (recompute ["iva"] self) with (_compute_total self >> ret tt).
    change (_validate_fields self ["iva"]) with (ret tt : orm unit).
    unfold bind, ret, _compute_total.
    rewrite (for_each_ext _ (fun id => assign id (set_iva t))); cycle 1.
    { intros id s. unfold assign, bind, browse.
      destruct (s !! id); [by rewrite convert_all_iva | done]. }
    rewrite for_each_assign_run by done.
    by rewrite for_each_assign_run by (intros; by apply assigned_is_Some, Hall).
  - intros id r Hid Hr.
    rewrite assigned_inside by (done || apply _compute_total_body_idem).
    rewrite assigned_inside by done. by rewrite Hr.
  - intros id Hid. by rewrite !assigned_outside.
Qed.

(** ** Creating a record *)

(** What a successful [create] has done. *)
Lemma create_inv (vals : gmap string value) (st st' : store) (ids : list Z) :
  create vals st = Ok (ids, st') ->
  ∃ r0, convert_all stored_fields (with_defaults vals) blank = Ok r0 ∧
        ids = [fresh (dom st)] ∧
        st' = <[fresh (dom st) := _compute_total_body (_compute_subtotal_body r0)]> st ∧
        valores_ok r0 ∧
        name_free (nombre r0) st.
Proof.
  intros Hrun. unfold create, base_create, bind in Hrun.
  destruct (insert_row vals st) as [[ids0 st1]|e] eqn:Hins; [|done].
  unfold insert_row in Hins. unfold bind at 1 in Hins.
  unfold check_keys in Hins. destruct (decide _); [|done]. cbn [ret] in Hins.
  destruct (with_defaults vals !! "nombre"); [|done].
  destruct (convert_all stored_fields (with_defaults vals) blank) as [r0|e]; [|done].
  unfold bind at 1 in Hins. unfold check_unique, bind, browse in Hins.
  rewrite lookup_insert_eq in Hins.
  destruct (name_taken _ _ _) eqn:Htaken; [done|].
  rewrite recompute_precio_run in Hins; cycle 1.
  { apply precio_stored. }
  { intros j ->%list_elem_of_singleton. rewrite lookup_insert_eq. by eexists. }
  cbn [assigned foldl] in Hins. rewrite !alter_insert_eq in Hins.
  injection Hins as Hids Hst1. subst ids0 st1.
  rewrite validate_fields_run in Hrun.
  replace (existsb (mentions stored_fields) _check_valores_constrains) with true
    in Hrun by reflexivity.
  erewrite check_valores_cons in Hrun by apply lookup_insert_eq.
  change (precio_unitario (_compute_total_body (_compute_subtotal_body r0)))
    with (precio_unitario r0) in Hrun.
  change (cantidad (_compute_total_body (_compute_subtotal_body r0)))
    with (cantidad r0) in Hrun.
  destruct (precio_unitario r0 <? 0)%float eqn:Hp; [done|].
  destruct (Z.ltb_spec (cantidad r0) 0); [done|].
  injection Hrun as <- <-. exists r0. repeat split; [done..|].
  intros i r Hi Hname. apply bool_decide_eq_false_1 in Htaken. apply Htaken.
  exists i, r. pose proof (fresh_id_free st) as Hnew.
  rewrite lookup_insert_ne by congruence. split; [done|]. split; [congruence|done].
Qed.

(** Storing a value in the column of one field leaves the other fields. *)
Lemma convert_to_column_frame (name k : string) (v : value) (r r' : Producto) :
  convert_to_column name v r = Ok r' -> k ≠ name -> getattr k r' = getattr k r.
Proof.
  intros Hconv Hk. unfold convert_to_column in Hconv.
  repeat match type of Hconv with
         | context [String.eqb name ?s] =>
             destruct (String.eqb_spec name s) as [->|_]
         end;
    repeat case_match; try discriminate; simplify_eq; try done;
    apply String.eqb_neq in Hk; unfold getattr; cbn; by rewrite ?Hk.
Qed.

Lemma convert_all_frame (names : list string) (k : string)
    (vals : gmap string value) (r r' : Producto) :
  convert_all names vals r = Ok r' -> k ∉ names -> getattr k r' = getattr k r.
Proof.
  revert r. induction names as [|name rest IH]; intros r Hconv Hk.
  { by injection Hconv as <-. }
  cbn [convert_all] in Hconv.
  apply not_elem_of_cons in Hk as [Hne Hk].
  destruct (vals !! name) as [v|]; [|by apply IH].
  destruct (convert_to_column name v r) as [r1|e] eqn:Hcol; [|done].
  rewrite (IH _ Hconv Hk). by eapply convert_to_column_frame.
Qed.

Lemma convert_all_app (names1 names2 : list string)
    (vals : gmap string value) (r : Producto) :
  convert_all (names1 ++ names2) vals r =
    match convert_all names1 vals r with
    | Ok r1 => convert_all names2 vals r1
    | Raise e => Raise e
    end.
Proof.
  revert r. induction names1 as [|name rest IH]; intros r; [done|].
  cbn [app convert_all]. destruct (vals !! name) as [v|]; [|apply IH].
  destruct (convert_to_column name v r); [apply IH | done].
Qed.

(** A field for which [vals] has no value keeps what the row had. *)
Lemma convert_all_absent (names : list string) (k : string)
    (vals : gmap string value) (r r' : Producto) :
  convert_all names vals r = Ok r' -> vals !! k = None -> getattr k r' = getattr k r.
Proof.
  revert r. induction names as [|name rest IH]; intros r Hconv Hk.
  { by injection Hconv as <-. }
  cbn [convert_all] in Hconv.
  destruct (vals !! name) as [v|] eqn:Hv; [|by apply IH].
  destruct (convert_to_column name v r) as [r1|e] eqn:Hcol; [|done].
  rewrite (IH _ Hconv Hk). eapply convert_to_column_frame; [done|]. congruence.
Qed.

(** The field [k] of the converted row is what the column of [k] made of
    the value given for it. *)
Lemma convert_all_present (before after : list string) (k : string) (d : value)
    (vals : gmap string value) (r r' : Producto) :
  convert_all (before ++ k :: after) vals r = Ok r' ->
  k ∉ after ->
  vals !! k = Some d ->
  ∃ r1 r2, convert_to_column k d r1 = Ok r2 ∧ getattr k r' = getattr k r2.
Proof.
  intros Hconv Hk Hd. rewrite convert_all_app in Hconv.
  destruct (convert_all before vals r) as [r1|e]; [|done].
  cbn [convert_all] in Hconv. rewrite Hd in Hconv.
  destruct (convert_to_column k d r1) as [r2|e] eqn:Hcol; [|done].
  exists r1, r2. split; [done|]. by eapply convert_all_frame.
Qed.

Lemma with_defaults_absent (vals : gmap string value) (k : string) :
  vals !! k = None ->
  with_defaults vals !! k =
    if decide (k = "cantidad") then Some (VInt 1)
    else if bool_decide (k ∈ stored_fields) then field_default k else None.
Proof.
  intros Hk. unfold with_defaults. rewrite lookup_union_r by done.
  unfold default_get. destruct (decide (k = "cantidad")) as [->|Hne].
  { apply lookup_insert_eq. }
  rewrite lookup_insert_ne by done. rewrite base_default_get_lookup.
  assert (k ∈ List.filter (fun name => negb (bool_decide (is_Some (vals !! name))))
                stored_fields <-> k ∈ stored_fields) as Hmiss.
  { rewrite elem_of_filter_bool, Hk. split; [by intros [? _] | intros ?; split; [done|]].
    by rewrite bool_decide_eq_false_2 by (by intros [? [=]]). }
  by rewrite (bool_decide_ext _ _ Hmiss).
Qed.

Lemma converted_default (before after : list string) (k : string) (d : value)
    (vals : gmap string value) (r0 : Producto) :
  convert_all (before ++ k :: after) (with_defaults vals) blank = Ok r0 ->
  k ∉ after ->
  vals !! k = None ->
  (if decide (k = "cantidad") then Some (VInt 1)
   else if bool_decide (k ∈ stored_fields) then field_default k else None) = Some d ->
  ∃ r1 r2, convert_to_column k d r1 = Ok r2 ∧ getattr k r0 = getattr k r2.
Proof.
  intros Hconv Hk Hvals Hd. eapply convert_all_present; [done..|].
  by rewrite with_defaults_absent.
Qed.

(** X8: a [create] that succeeds adds one row under an id that was free and
    changes no other row; every field that [vals] leaves out has its
    default in the new row (price 10.0, quantity 1, tax 21, active, kind
    fisico, no description, no category), and subtotal and total are the
    ones computed from the row's own values. *)
Theorem create_defaults (vals : gmap string value) (st st' : store) (ids : list Z) :
  create vals st = Ok (ids, st') ->
  ∃ id r, ids = [id] ∧ st !! id = None ∧ st' = <[id := r]> st ∧
    (vals !! "precio_unitario" = None -> precio_unitario r = 10.0%float) ∧
    (vals !! "cantidad" = None -> cantidad r = 1) ∧
    (vals !! "iva" = None -> iva r = 21%float) ∧
    (vals !! "activo" = None -> activo r = true) ∧
    (vals !! "tipo" = None -> tipo r = Some fisico) ∧
    (vals !! "descripcion" = None -> descripcion r = None) ∧
    (vals !! "categoria_id" = None -> categoria_id r = None) ∧
    subtotal r = (precio_unitario r * float_of_int (cantidad r))%float ∧
    total r = (subtotal r * (1 + iva r / 100))%float.
Proof.
  intros (r0 & Hconv & -> & -> & _ & _)%create_inv.
  exists (fresh (dom st)), (_compute_total_body (_compute_subtotal_body r0)).
  split; [done|]. split; [apply fresh_id_free|]. split; [done|].
  change (precio_unitario (_compute_total_body (_compute_subtotal_body r0)))
    with (precio_unitario r0).
  change (cantidad (_compute_total_body (_compute_subtotal_body r0)))
    with (cantidad r0).
  change (iva (_compute_total_body (_compute_subtotal_body r0))) with (iva r0).
  change (activo (_compute_total_body (_compute_subtotal_body r0))) with (activo r0).
  change (tipo (_compute_total_body (_compute_subtotal_body r0))) with (tipo r0).
  change (descripcion (_compute_total_body (_compute_subtotal_body r0)))
    with (descripcion r0).
  change (categoria_id (_compute_total_body (_compute_subtotal_body r0)))
    with (categoria_id r0).
  repeat split.
  - intros Hk.
    destruct (converted_default ["nombre"; "descripcion"]
                ["cantidad"; "iva"; "activo"; "categoria_id"; "tipo"]
                "precio_unitario" (VFloat 10.0) vals r0 Hconv)
      as (r1 & r2 & [= <-] & [= Hget]); [by apply (bool_decide_unpack _)|done..].
  - intros Hk.
    destruct (converted_default ["nombre"; "descripcion"; "precio_unitario"]
                ["iva"; "activo"; "categoria_id"; "tipo"]
                "cantidad" (VInt 1) vals r0 Hconv)
      as (r1 & r2 & [= <-] & [= Hget]); [by apply (bool_decide_unpack _)|done..].
  - intros Hk.
    destruct (converted_default ["nombre"; "descripcion"; "precio_unitario"; "cantidad"]
                ["activo"; "categoria_id"; "tipo"]
                "iva" (VInt 21) vals r0 Hconv)
      as (r1 & r2 & [= <-] & [= Hget]); [by apply (bool_decide_unpack _)|done..].
  - intros Hk.
    destruct (converted_default
                ["nombre"; "descripcion"; "precio_unitario"; "cantidad"; "iva"]
                ["categoria_id"; "tipo"]
                "activo" (VBool true) vals r0 Hconv)
      as (r1 & r2 & [= <-] & [= Hget]); [by apply (bool_decide_unpack _)|done..].
  - intros Hk.
    destruct (converted_default
                ["nombre"; "descripcion"; "precio_unitario"; "cantidad"; "iva";
                 "activo"; "categoria_id"]
                [] "tipo" (VStr "fisico") vals r0 Hconv)
      as (r1 & r2 & [= <-] & Hget); [by apply (bool_decide_unpack _)|done..|].
    cbn in Hget. destruct (tipo r0) as [[]|]; by inversion Hget.
  - intros Hk.
    assert (with_defaults vals !! "descripcion" = None) as Habs
      by (by rewrite with_defaults_absent).
    pose proof (convert_all_absent _ _ _ _ _ Hconv Habs) as Hget.
    cbn in Hget. by destruct (descripcion r0).
  - intros Hk.
    assert (with_defaults vals !! "categoria_id" = None) as Habs
      by (by rewrite with_defaults_absent).
    pose proof (convert_all_absent _ _ _ _ _ Hconv Habs) as Hget.
    cbn in Hget. by destruct (categoria_id r0).
Qed.

(** X9: the name is required: a [create] whose [vals] has no name raises,
    whatever else it holds and whatever the table; with known keys the
    exception is the storage layer's refusal of an empty name. *)
Theorem create_requires_nombre (vals : gmap string value) (st : store) :
  vals !! "nombre" = None ->
  create vals st =
    Raise (if decide (dom vals ⊆ list_to_set all_fields)
           then Exc IntegrityError "null value in column nombre violates not-null constraint"
           else Exc ValueError "Invalid field on model mi.producto").
Proof.
  intros Hk. unfold create, base_create, insert_row, bind, check_keys.
  destruct (decide _); [|done]. cbn [ret].
  by rewrite with_defaults_absent.
Qed.

(** ** Inactive records and the list of active ones *)

Lemma action_marcar_inactivo_loop (self : list Z) (st : store) :
  action_marcar_inactivo self st =
    match for_each (fun id => assign id (set_activo false)) self st with
    | Ok (_, st') => Ok (VBool true, st')
    | Raise e => Raise e
    end.
Proof.
  unfold action_marcar_inactivo. unfold bind at 1.
  rewrite (for_each_ext _ (fun id => assign id (set_activo false)))
    by apply setattr_activo.
  by destruct (for_each _ self st) as [[[] st']|e].
Qed.

Lemma productos_activos_run (st : store) :
  ∃ ids, productos_activos st = Ok (VRecordset ids, st) ∧
         ∀ id, id ∈ ids <-> ∃ r, st !! id = Some r ∧ activo r = true.
Proof.
  eexists. split; [reflexivity|]. intros id.
  rewrite list_elem_of_fmap. split.
  - intros ([id' r] & -> & Hin). exists r.
    rewrite merge_sort_Permutation, elem_of_filter_bool, elem_of_map_to_list in Hin.
    cbn [snd] in Hin. by rewrite domain_holds_activo in Hin.
  - intros (r & Hr & Hact). exists (id, r). split; [done|].
    rewrite merge_sort_Permutation, elem_of_filter_bool, elem_of_map_to_list.
    cbn [snd]. by rewrite domain_holds_activo.
Qed.

(** X10: after [action_marcar_inactivo] on existing records,
    [productos_activos] lists none of them, and lists every other record
    exactly when it was active before. *)
Theorem inactivos_not_listed (self : list Z) (st : store) :
  (∀ id, id ∈ self -> is_Some (st !! id)) ->
  ∃ st' ids,
    (action_marcar_inactivo self >> productos_activos) st = Ok (VRecordset ids, st') ∧
    ∀ id, id ∈ ids <-> (∃ r, st !! id = Some r ∧ activo r = true) ∧ id ∉ self.
Proof.
  intros Hall. set (st' := assigned (set_activo false) self st).
  destruct (productos_activos_run st') as (ids & Hrun & Hids).
  exists st', ids. split.
  - unfold bind. rewrite action_marcar_inactivo_loop.
    by rewrite for_each_assign_run.
  - intros id. rewrite Hids. unfold st'.
    rewrite assigned_lookup by apply set_activo_idem.
    destruct (decide (id ∈ self)) as [Hin|Hout].
    + split; [|by intros [_ ?]]. intros (r & Hr & Hact).
      destruct (st !! id) as [r0|]; [|done]. by injection Hr as <-.
    + split; [intros ?; by split | by intros [? _]].
Qed.

(** X11: [action_marcar_inactivo] run a second time on the same records
    ends as the first run did: with the same table and [True], or with the
    same exception. *)
Theorem action_marcar_inactivo_idempotent (self : list Z) (st : store) :
  (action_marcar_inactivo self >> action_marcar_inactivo self) st =
    action_marcar_inactivo self st.
Proof.
  unfold bind. rewrite action_marcar_inactivo_loop.
  destruct (for_each _ self st) as [[[] st']|e] eqn:Hrun; [|done].
  rewrite action_marcar_inactivo_loop.
  by rewrite (for_each_assign_again _ _ _ _ _ set_activo_idem Hrun).
Qed.

(** ** Duplicating again, and listing after a duplication *)

(** Creating the copy of a record whose copy is already a row. *)
Lemma create_duplicar_vals_taken (record : Producto) (st : store) (i : Z) (r : Producto) :
  st !! i = Some r ->
  nombre r = nombre record +:+ " (Copia)" ->
  create (duplicar_vals record) st = Raise (Exc IntegrityError nombre_uniq_message).
Proof.
  intros Hi Hname.
  destruct (with_defaults_duplicar_vals record) as [Hnombre Hconv].
  unfold create, base_create, insert_row, bind.
  rewrite check_keys_duplicar_vals, Hnombre, Hconv.
  unfold check_unique, bind, browse. rewrite lookup_insert_eq.
  assert (name_taken (fresh (dom st))
            (nombre (set_total 0 (set_subtotal 0
               (set_nombre (nombre record +:+ " (Copia)") record))))
            (<[fresh (dom st) :=
                 set_total 0 (set_subtotal 0
                   (set_nombre (nombre record +:+ " (Copia)") record))]> st) = true)
    as ->; [|done].
  apply bool_decide_eq_true_2. exists i, r.
  pose proof (fresh_id_free st) as Hnew.
  rewrite lookup_insert_ne by congruence. split; [done|]. split; [congruence|done].
Qed.

(** X12: a record cannot be duplicated twice: the second duplication, in
    the same call or in a later one, is refused for the name of the copy
    being taken, and a commit of the call that lists the record twice
    leaves the table without any copy. *)
Theorem duplicar_producto_once (id : Z) (record : Producto) (st : store) :
  st !! id = Some record ->
  valores_ok record ->
  name_free (nombre record +:+ " (Copia)") st ->
  (duplicar_producto [id] >> duplicar_producto [id]) st =
    Raise (Exc IntegrityError nombre_uniq_message) ∧
  duplicar_producto [id; id] st = Raise (Exc IntegrityError nombre_uniq_message) ∧
  commit (duplicar_producto [id; id]) st =
    (Raise (Exc IntegrityError nombre_uniq_message), st).
Proof.
  intros Hr Hok Hfree.
  pose proof (fresh_id_free st) as Hnew.
  assert ((let* r := browse id in create (duplicar_vals r) >> ret tt)
            (<[fresh (dom st) := copia record]> st) =
          Raise (Exc IntegrityError nombre_uniq_message)) as Hsecond.
  { unfold bind at 1. unfold browse.
    rewrite lookup_insert_ne by congruence. rewrite Hr. unfold bind.
    by rewrite (create_duplicar_vals_taken record _ (fresh (dom st)) (copia record))
      by (done || apply lookup_insert_eq). }
  assert (duplicar_producto [id; id] st =
          Raise (Exc IntegrityError nombre_uniq_message)) as Htwice.
  { unfold duplicar_producto. cbn [for_each]. unfold bind at 1. unfold bind at 1.
    rewrite (duplicar_step id record st Hr Hok Hfree).
    unfold bind at 1. by rewrite Hsecond. }
  split; [|split; [done|]].
  - unfold bind at 1. unfold duplicar_producto at 1. cbn [for_each].
    unfold bind at 1. unfold bind at 1.
    rewrite (duplicar_step id record st Hr Hok Hfree). cbn [ret].
    unfold duplicar_producto. cbn [for_each]. unfold bind at 1. unfold bind at 1.
    by rewrite Hsecond.
  - unfold commit. by rewrite Htwice.
Qed.

(** X13: after a duplication, [productos_activos] lists what it listed
    before and, when the original is active, the copy as well: the copy is
    listed exactly when its original is. *)
Theorem duplicar_then_listed (id : Z) (record : Producto) (st : store) :
  st !! id = Some record ->
  valores_ok record ->
  name_free (nombre record +:+ " (Copia)") st ->
  ∃ new st' ids,
    (duplicar_producto [id] >> productos_activos) st = Ok (VRecordset ids, st') ∧
    st !! new = None ∧
    (new ∈ ids <-> id ∈ ids) ∧
    ∀ j, j ∈ ids <->
      (∃ r, st !! j = Some r ∧ activo r = true) ∨ (j = new ∧ activo record = true).
Proof.
  intros Hr Hok Hfree. pose proof (fresh_id_free st) as Hnew.
  set (new := fresh (dom st)) in *.
  destruct (productos_activos_run (<[new := copia record]> st)) as (ids & Hrun & Hids).
  assert (∀ j, j ∈ ids <->
            (∃ r, st !! j = Some r ∧ activo r = true) ∨ (j = new ∧ activo record = true))
    as Hchar.
  { intros j. rewrite Hids, lookup_insert. destruct (decide (new = j)) as [<-|Hne].
    - split.
      + intros (r & [= <-] & Hact). by right.
      + intros [(r & Hr' & _)|[_ Hact]]; [congruence|]. by exists (copia record).
    - split; [by left|]. intros [?|[-> _]]; done. }
  exists new, (<[new := copia record]> st), ids. split; [|split; [done|split; [|done]]].
  - unfold bind at 1. unfold duplicar_producto. cbn [for_each].
    unfold bind at 1. unfold bind at 1.
    by rewrite (duplicar_step id record st Hr Hok Hfree).
  - rewrite !Hchar. split.
    + intros [(r & Hr' & _)|[_ Hact]]; [congruence|]. left. by exists record.
    + intros [(r & Hr' & Hact)|[-> _]]; [|congruence].
      right. split; [done|]. congruence.
Qed.

(** ** The invariants of the table *)

Lemma store_vals_spec (self : list Z) (vals : gmap string value) (st st2 : store) :
  store_vals self vals st = Ok (tt, st2) ->
  ∀ id, match st !! id with
        | Some r => ∃ r2, st2 !! id = Some r2 ∧ (id ∉ self -> r2 = r) ∧
                          (∀ k, vals !! k = None -> getattr k r2 = getattr k r)
        | None => st2 !! id = None
        end.
Proof.
  unfold store_vals. revert st. induction self as [|a self IH]; intros st Hrun id.
  { injection Hrun as <-. destruct (st !! id) as [r|]; [|done]. by exists r. }
  cbn [for_each] in Hrun. unfold bind at 1 in Hrun. unfold bind at 1, browse in Hrun.
  destruct (st !! a) as [ra|] eqn:Ha; [|done].
  destruct (convert_all stored_fields vals ra) as [ra'|e] eqn:Hconv; [|done].
  specialize (IH _ Hrun id). rewrite lookup_insert in IH.
  destruct (decide (a = id)) as [<-|Hne].
  - rewrite Ha. destruct IH as (r2 & Hr2 & _ & Hframe). exists r2.
    split; [done|]. split; [intros Hnot; exfalso; apply Hnot; by left|].
    intros k Hk. rewrite (Hframe k Hk). by eapply convert_all_absent.
  - destruct (st !! id) as [r|]; [|done].
    destruct IH as (r2 & Hr2 & Hout & Hframe). exists r2.
    split; [done|]. split; [|done]. intros Hnot. apply Hout.
    intros Hin. apply Hnot. by right.
Qed.

Lemma check_unique_loop (self : list Z) (st st' : store) (u : unit) :
  for_each check_unique self st = Ok (u, st') ->
  st' = st ∧
  ∀ id r, id ∈ self -> st !! id = Some r -> name_taken id (nombre r) st = false.
Proof.
  revert st'. induction self as [|a self IH]; intros st' Hrun.
  { injection Hrun as <-. split; [done|]. intros id r Hid. by apply elem_of_nil in Hid. }
  cbn [for_each] in Hrun. unfold bind at 1 in Hrun.
  unfold check_unique at 1 in Hrun. unfold bind at 1, browse in Hrun.
  destruct (st !! a) as [ra|] eqn:Ha; [|done].
  destruct (name_taken a (nombre ra) st) eqn:Htaken; [done|].
  destruct (IH _ Hrun) as [-> Hrest]. split; [done|].
  intros id r [->|Hid]%elem_of_cons Hr; [congruence | by apply Hrest].
Qed.

Lemma recompute_keeps_keys (changed : list string) (self : list Z) (st st' : store) (u : unit) :
  recompute changed self st = Ok (u, st') ->
  ∀ id, match st !! id with
        | Some r => ∃ r', st' !! id = Some r' ∧ nombre r' = nombre r ∧
                          precio_unitario r' = precio_unitario r ∧
                          cantidad r' = cantidad r
        | None => st' !! id = None
        end.
Proof.
  unfold recompute. rewrite recompute_plan_cases.
  destruct (existsb (mentions changed) ["precio_unitario"; "cantidad"]);
    [|destruct (existsb (mentions changed) ["subtotal"; "iva"])];
    unfold computed_fields; cbn [drop for_each method]; intros Hrun id.
  - unfold bind, ret, _compute_subtotal, _compute_total in Hrun.
    destruct (for_each (fun id => assign id _compute_subtotal_body) self st)
      as [[[] st1]|e] eqn:H1; [|done].
    destruct (for_each (fun id => assign id _compute_total_body) self st1)
      as [[[] st2]|e] eqn:H2; [|done].
    injection Hrun as _ <-.
    pose proof (for_each_assign_inv _ _ _ _ _ H1) as Hall.
    rewrite for_each_assign_run in H1 by done. injection H1 as Hst1. subst st1.
    rewrite for_each_assign_run in H2 by (intros; by apply assigned_is_Some, Hall).
    injection H2 as Hst2. subst st2.
    rewrite !assigned_lookup by (apply _compute_subtotal_body_idem || apply _compute_total_body_idem).
    destruct (decide (id ∈ self)), (st !! id) as [r|]; cbn; try done; by eexists.
  - unfold bind, ret, _compute_total in Hrun.
    destruct (for_each (fun id => assign id _compute_total_body) self st)
      as [[[] st1]|e] eqn:H1; [|done].
    injection Hrun as _ <-.
    pose proof (for_each_assign_inv _ _ _ _ _ H1) as Hall.
    rewrite for_each_assign_run in H1 by done. injection H1 as Hst1. subst st1.
    rewrite assigned_lookup by apply _compute_total_body_idem.
    destruct (decide (id ∈ self)), (st !! id) as [r|]; cbn; try done; by eexists.
  - injection Hrun as _ <-. destruct (st !! id) as [r|]; [by exists r | done].
Qed.

Lemma mentions_dom (vals : gmap string value) (k : string) :
  mentions (elements (dom vals)) k = bool_decide (is_Some (vals !! k)).
Proof.
  unfold mentions. apply bool_decide_ext.
  by rewrite elem_of_elements, elem_of_dom.
Qed.

(** What a successful [update_rows] has done to the name, the price and the
    quantity of the rows, and what it has checked of the names. *)
Lemma update_rows_spec (self : list Z) (vals : gmap string value) (st st1 : store) :
  update_rows self vals st = Ok (tt, st1) ->
  (∀ id, match st !! id with
         | Some r =>
             ∃ r1, st1 !! id = Some r1 ∧
               (vals !! "nombre" = None ∨ id ∉ self -> nombre r1 = nombre r) ∧
               (vals !! "precio_unitario" = None ∨ id ∉ self ->
                precio_unitario r1 = precio_unitario r) ∧
               (vals !! "cantidad" = None ∨ id ∉ self -> cantidad r1 = cantidad r)
         | None => st1 !! id = None
         end) ∧
  (is_Some (vals !! "nombre") ->
   ∀ id r1 j rj, id ∈ self -> st1 !! id = Some r1 -> st1 !! j = Some rj ->
                 j ≠ id -> nombre rj ≠ nombre r1).
Proof.
  intros Hrun. unfold update_rows in Hrun. unfold bind at 1 in Hrun.
  unfold check_keys in Hrun. destruct (decide _); [|done]. cbn [ret] in Hrun.
  unfold bind at 1 in Hrun.
  destruct (for_each _ self st) as [[[] st2]|e] eqn:Hloop; [|done].
  change (store_vals self vals st = Ok (tt, st2)) in Hloop.
  unfold bind at 1 in Hrun. rewrite mentions_dom in Hrun.
  assert (∃ u, recompute (elements (dom vals)) self st2 = Ok (u, st1) ∧
               (is_Some (vals !! "nombre") ->
                ∀ id r, id ∈ self -> st2 !! id = Some r ->
                        name_taken id (nombre r) st2 = false)) as (u & Hrec & Huniq).
  { case_bool_decide as Hnom.
    - destruct (for_each check_unique self st2) as [[[] st3]|e] eqn:Hchk; [|done].
      destruct (check_unique_loop _ _ _ _ Hchk) as [-> Htaken].
      destruct (recompute _ self st2) as [[u stn]|e]; [|done].
      injection Hrun as _ <-. exists u. split; [done|]. intros _. exact Htaken.
    - cbn [ret] in Hrun. destruct (recompute _ self st2) as [[u stn]|e]; [|done].
      injection Hrun as _ <-. exists u. split; [done|]. intros Hn. by destruct Hnom. }
  split.
  - intros id. pose proof (store_vals_spec _ _ _ _ Hloop id) as Hl.
    pose proof (recompute_keeps_keys _ _ _ _ _ Hrec id) as Hr.
    destruct (st !! id) as [r|]; [|by rewrite Hl in Hr].
    destruct Hl as (r2 & Hr2 & Hout & Hframe). rewrite Hr2 in Hr.
    destruct Hr as (r1 & Hr1 & Hn & Hp & Hq). exists r1. split; [done|].
    rewrite Hn, Hp, Hq. repeat split.
    + intros [Hk|Hnot]; [|by rewrite (Hout Hnot)].
      specialize (Hframe _ Hk). by injection Hframe.
    + intros [Hk|Hnot]; [|by rewrite (Hout Hnot)].
      specialize (Hframe _ Hk). by injection Hframe.
    + intros [Hk|Hnot]; [|by rewrite (Hout Hnot)].
      specialize (Hframe _ Hk). by injection Hframe.
  - intros Hnom id r1 j rj Hid Hr1 Hj Hne Hname.
    pose proof (recompute_keeps_keys _ _ _ _ _ Hrec id) as Hi2.
    pose proof (recompute_keeps_keys _ _ _ _ _ Hrec j) as Hj2.
    destruct (st2 !! id) as [r2|] eqn:Hid2; [|congruence].
    destruct (st2 !! j) as [rj2|] eqn:Hjj2; [|congruence].
    destruct Hi2 as (r1' & Hr1' & Hn1 & _). destruct Hj2 as (rj' & Hrj' & Hnj & _).
    simplify_eq. specialize (Huniq Hnom id r2 Hid Hid2).
    apply bool_decide_eq_false_1 in Huniq. apply Huniq.
    exists j, rj2. split; [done|]. split; [done|]. congruence.
Qed.

Lemma insert_keeps_table_ok (st : store) (id : Z) (r : Producto) :
  table_ok st -> st !! id = None -> valores_ok r -> name_free (nombre r) st ->
  table_ok (<[id := r]> st).
Proof.
  intros [Huniq Hvalid] Hnew Hok Hfree. split.
  - intros i ri Hi j rj Hj Hname.
    rewrite lookup_insert in Hi. rewrite lookup_insert in Hj.
    destruct (decide (id = i)) as [<-|], (decide (id = j)) as [<-|];
      [done| | |by eapply Huniq].
    + injection Hi as <-. exfalso. by eapply Hfree.
    + injection Hj as <-. exfalso. by eapply Hfree.
  - intros i ri Hi. rewrite lookup_insert in Hi.
    destruct (decide (id = i)); [by injection Hi as <- | by eapply Hvalid].
Qed.

Lemma update_keeps_table_ok (self : list Z) (vals : gmap string value) (st st1 : store) :
  table_ok st ->
  update_rows self vals st = Ok (tt, st1) ->
  (existsb (mentions (elements (dom vals))) _check_valores_constrains = true ->
   ∀ id r, id ∈ self -> st1 !! id = Some r -> valores_ok r) ->
  table_ok st1.
Proof.
  intros [Huniq Hvalid] Hup Hchecked.
  destruct (update_rows_spec _ _ _ _ Hup) as [Hrows Hnames].
  assert (∀ id r1, st1 !! id = Some r1 ->
            ∃ r, st !! id = Some r ∧
                 (vals !! "nombre" = None ∨ id ∉ self -> nombre r1 = nombre r) ∧
                 (vals !! "precio_unitario" = None ∨ id ∉ self ->
                  precio_unitario r1 = precio_unitario r) ∧
                 (vals !! "cantidad" = None ∨ id ∉ self -> cantidad r1 = cantidad r))
    as Hback.
  { intros id r1 Hr1. specialize (Hrows id).
    destruct (st !! id) as [r|]; [|congruence].
    destruct Hrows as (r1' & Hr1' & Hrest). exists r. split; [done|]. congruence. }
  split.
  - intros i ri Hi j rj Hj Hname.
    destruct (decide (i = j)) as [|Hne]; [done|]. exfalso.
    destruct (vals !! "nombre") as [v|] eqn:Hnom.
    + destruct (decide (i ∈ self)) as [Hin|Hout].
      { eapply (Hnames ltac:(by eexists) i ri j rj); [done..|congruence|done]. }
      destruct (decide (j ∈ self)) as [Hjn|Hjout].
      { by eapply (Hnames ltac:(by eexists) j rj i ri). }
      destruct (Hback _ _ Hi) as (r & Hr & Hn & _).
      destruct (Hback _ _ Hj) as (r' & Hr' & Hn' & _).
      apply Hne. eapply Huniq; [done..|]. rewrite <- Hn, <- Hn' by (by right). done.
    + destruct (Hback _ _ Hi) as (r & Hr & Hn & _).
      destruct (Hback _ _ Hj) as (r' & Hr' & Hn' & _).
      apply Hne. eapply Huniq; [done..|]. rewrite <- Hn, <- Hn' by (by left). done.
  - intros id r1 Hr1. destruct (Hback _ _ Hr1) as (r & Hr & _ & Hp & Hq).
    destruct (decide (id ∈ self)) as [Hin|Hout]; cycle 1.
    { destruct (Hvalid _ _ Hr) as [Hvp Hvq]. split; [rewrite Hp | rewrite Hq]; auto. }
    destruct (existsb (mentions (elements (dom vals))) _check_valores_constrains) eqn:Hval.
    { by eapply Hchecked. }
    cbn [existsb _check_valores_constrains] in Hval. rewrite !mentions_dom in Hval.
    apply orb_false_elim in Hval as [Hvp Hval].
    apply orb_false_elim in Hval as [Hvq _].
    apply bool_decide_eq_false_1 in Hvp. apply bool_decide_eq_false_1 in Hvq.
    assert (vals !! "precio_unitario" = None) as Hnp.
    { destruct (vals !! "precio_unitario"); [|done]. destruct Hvp. by eexists. }
    assert (vals !! "cantidad" = None) as Hnq.
    { destruct (vals !! "cantidad"); [|done]. destruct Hvq. by eexists. }
    destruct (Hvalid _ _ Hr) as [Hokp Hokq].
    split; [rewrite Hp | rewrite Hq]; auto.
Qed.

(** X14: a create or an update that is committed on a table with unique
    names and no refused price or quantity leaves such a table, whether it
    succeeds or raises. *)
Theorem commit_keeps_table_ok (op : operation) (st : store) :
  table_ok st -> table_ok (commit (run op) st).2.
Proof.
  intros Hok. unfold commit. rewrite run_stage.
  destruct (stage op st) as [[ids st1]|e] eqn:Hstage; [|done].
  assert (∀ id r, validated op = true ->
            _validate_fields ids (written op) st1 = Ok (tt, st1) ->
            id ∈ ids -> st1 !! id = Some r -> valores_ok r) as Hchecked.
  { intros id r Hval Hrun Hid Hr. rewrite validate_fields_run in Hrun.
    unfold validated in Hval. rewrite Hval in Hrun.
    destruct (check_valores_cases ids st1 (stage_exist _ _ _ _ Hstage))
      as [[_ Hall]|(e & ? & ? & He & _)]; [by eapply Hall | congruence]. }
  assert (_validate_fields ids (written op) st1 = Ok (tt, st1) ∨
          ∃ e, _validate_fields ids (written op) st1 = Raise e) as [Hv|[e Hv]].
  { rewrite validate_fields_run. destruct (existsb _ _); [|by left].
    destruct (check_valores_cases ids st1 (stage_exist _ _ _ _ Hstage))
      as [[Hpass _]|(e & ? & ? & He & _)]; [by left | right; by eexists]. }
  2: { by rewrite Hv. }
  rewrite Hv. cbn [snd]. destruct op as [vals|self vals]; cbn [stage] in Hstage.
  - assert (create vals st = Ok (ids, st1)) as Hcreate.
    { unfold create, base_create, bind. rewrite Hstage. cbn [written] in Hv.
      by rewrite Hv. }
    apply create_inv in Hcreate as (r0 & _ & _ & -> & Hr0 & Hfree).
    apply insert_keeps_table_ok; [done | apply fresh_id_free | done | done].
  - unfold bind in Hstage.
    destruct (update_rows self vals st) as [[[] st2]|e] eqn:Hup; [|done].
    injection Hstage as <- <-.
    eapply update_keeps_table_ok; [done..|].
    intros Hval id r Hid Hr. by eapply Hchecked.
Qed.

(** ** Instances on the sample tables *)

Lemma shop_table_ok : table_ok shop.
Proof.
  split; [exact shop_unique_names|].
  apply (bool_decide_unpack
           (map_Forall (fun _ r => (precio_unitario r <? 0)%float = false ∧ 0 ≤ cantidad r)
                       shop)).
  by vm_compute.
Defined.

Lemma ledger_valid_before (id : Z) :
  id ∈ [1; 2] -> ∃ r, ledger !! id = Some r ∧ valores_ok r.
Proof.
  intros Hid. apply elem_of_cons in Hid as [->|Hid].
  { exists widget. split; [reflexivity | exact widget_ok]. }
  apply elem_of_cons in Hid as [->|Hid].
  { exists gadget. split; [reflexivity | exact gadget_ok]. }
  by apply elem_of_nil in Hid.
Defined.

Lemma refund_offending :
  offending refund (Exc ValueError "El precio unitario no puede ser negativo").
Proof. left. split; reflexivity. Defined.

Lemma check_valores_first_offender_witness :
  _check_valores ([1; 2] ++ 3 :: [9]) ledger =
    Raise (Exc ValueError "El precio unitario no puede ser negativo").
Proof.
  exact (check_valores_first_offender [1; 2] [9] 3 refund _ ledger
           ledger_valid_before eq_refl refund_offending).
Defined.

Lemma write_iva_witness :
  ∃ st', write [1; 2] {["iva" := VFloat 10]} shop = Ok (true, st') ∧
    (∀ id r, id ∈ [1; 2] -> shop !! id = Some r ->
       st' !! id = Some (set_total (subtotal r * (1 + 10 / 100))%float (set_iva 10 r))) ∧
    (∀ id, id ∉ [1; 2] -> st' !! id = shop !! id).
Proof. exact (write_iva [1; 2] 10 shop in_shop). Defined.

Lemma create_bolt :
  create {["nombre" := VStr "Bolt"]} shop =
    Ok ([3], <[3 := set_nombre "Bolt" widget]> shop).
Proof. by vm_compute. Defined.

Lemma create_defaults_witness :
  ∃ id r, [3] = [id] ∧ shop !! id = None ∧
    <[3 := set_nombre "Bolt" widget]> shop = <[id := r]> shop ∧
    (({["nombre" := VStr "Bolt"]} : gmap string value) !! "precio_unitario" = None ->
     precio_unitario r = 10.0%float) ∧
    (({["nombre" := VStr "Bolt"]} : gmap string value) !! "cantidad" = None ->
     cantidad r = 1) ∧
    (({["nombre" := VStr "Bolt"]} : gmap string value) !! "iva" = None ->
     iva r = 21%float) ∧
    (({["nombre" := VStr "Bolt"]} : gmap string value) !! "activo" = None ->
     activo r = true) ∧
    (({["nombre" := VStr "Bolt"]} : gmap string value) !! "tipo" = None ->
     tipo r = Some fisico) ∧
    (({["nombre" := VStr "Bolt"]} : gmap string value) !! "descripcion" = None ->
     descripcion r = None) ∧
    (({["nombre" := VStr "Bolt"]} : gmap string value) !! "categoria_id" = None ->
     categoria_id r = None) ∧
    subtotal r = (precio_unitario r * float_of_int (cantidad r))%float ∧
    total r = (subtotal r * (1 + iva r / 100))%float.
Proof.
  exact (create_defaults {["nombre" := VStr "Bolt"]} shop _ [3] create_bolt).
Defined.

Lemma create_requires_nombre_witness :
  create ∅ shop =
    Raise (if decide (dom (∅ : gmap string value) ⊆ list_to_set all_fields)
           then Exc IntegrityError "null value in column nombre violates not-null constraint"
           else Exc ValueError "Invalid field on model mi.producto").
Proof. exact (create_requires_nombre ∅ shop eq_refl). Defined.

Lemma inactivos_not_listed_witness :
  ∃ st' ids,
    (action_marcar_inactivo [1; 2] >> productos_activos) shop = Ok (VRecordset ids, st') ∧
    ∀ id, id ∈ ids <-> (∃ r, shop !! id = Some r ∧ activo r = true) ∧ id ∉ [1; 2].
Proof. exact (inactivos_not_listed [1; 2] shop in_shop). Defined.

Lemma duplicar_producto_once_witness :
  (duplicar_producto [1] >> duplicar_producto [1]) shop =
    Raise (Exc IntegrityError nombre_uniq_message) ∧
  duplicar_producto [1; 1] shop = Raise (Exc IntegrityError nombre_uniq_message) ∧
  commit (duplicar_producto [1; 1]) shop =
    (Raise (Exc IntegrityError nombre_uniq_message), shop).
Proof.
  exact (duplicar_producto_once 1 widget shop eq_refl widget_ok shop_widget_copy_free).
Defined.

Lemma duplicar_then_listed_witness :
  ∃ new st' ids,
    (duplicar_producto [1] >> productos_activos) shop = Ok (VRecordset ids, st') ∧
    shop !! new = None ∧
    (new ∈ ids <-> 1 ∈ ids) ∧
    ∀ j, j ∈ ids <->
      (∃ r, shop !! j = Some r ∧ activo r = true) ∨ (j = new ∧ activo widget = true).
Proof.
  exact (duplicar_then_listed 1 widget shop eq_refl widget_ok shop_widget_copy_free).
Defined.

Lemma commit_keeps_table_ok_witness :
  table_ok (commit (run (price_update 1 3)) shop).2 ∧
  table_ok (commit (run (price_update 1 (-1))) shop).2.
Proof.
  split.
  - exact (commit_keeps_table_ok (price_update 1 3) shop shop_table_ok).
  - exact (commit_keeps_table_ok (price_update 1 (-1)) shop shop_table_ok).
Defined.
